(** * ixC / ixc-trace: the encrypted conversation archive

    A shallow embedding of [chats_archive/storage.py] (key manager,
    encrypted store, integrity verification) and of
    [chats_archive/orchestrator.py] (lock file, job tracker, export loop),
    followed by the properties of the archival core.

    Conventions.
    - Python [str] and [bytes] are both [string]; [.encode()] and
      [.decode()] are the identity on them.
    - Values produced by [json.load] are terms of [json].  Numbers are
      covered in their integer form.
    - A Python call that may raise returns a [res]; [try]/[except] is a
      match on it.
    - The optional audit logger ([ProtectedLogger]) only appends to
      [audit.log] and catches its own failures; it is left out.
    - The libraries the code calls (hashlib, cryptography.fernet, base64,
      json, pathlib's glob) are the fields of the class [Platform]. *)

From Stdlib Require Import ZArith Lia Bool List String Ascii.
From Stdlib Require DecimalString.
From stdpp Require Import base option list strings gmap.

Set Warnings "-register-all".
Local Open Scope string_scope.
Local Open Scope Z_scope.

(** ** Python values *)

Inductive json : Type :=
| JNull
| JBool (b : bool)
| JNum (z : Z)
| JStr (s : string)
| JArr (l : list json)
| JObj (kv : list (string * json)).

(** Python truthiness, as used by [if x], [not x] and [x or y]. *)
Definition truthy (v : json) : bool :=
  match v with
  | JNull => false
  | JBool b => b
  | JNum z => negb (z =? 0)
  | JStr s => negb (String.eqb s "")
  | JArr l => match l with [] => false | _ => true end
  | JObj kv => match kv with [] => false | _ => true end
  end.

(** Truthiness of an [Optional] value: [None] is falsy. *)
Definition truthy_opt (o : option json) : bool :=
  match o with Some v => truthy v | None => false end.

Fixpoint assoc {A : Type} (k : string) (kv : list (string * A)) : option A :=
  match kv with
  | [] => None
  | (k', v) :: rest => if String.eqb k k' then Some v else assoc k rest
  end.

Fixpoint assoc_set {A : Type} (k : string) (v : A) (kv : list (string * A))
  : list (string * A) :=
  match kv with
  | [] => [(k, v)]
  | (k', v') :: rest =>
      if String.eqb k k' then (k, v) :: rest else (k', v') :: assoc_set k v rest
  end.

(** [x == s] for a string [s]: only the same string is equal to it. *)
Definition eq_str (v : json) (s : string) : bool :=
  match v with JStr s' => String.eqb s' s | _ => false end.

(** [s[:n]] *)
Definition prefix_n (n : nat) (s : string) : string := String.substring 0 n s.

(** [needle in hay] on strings. *)
Fixpoint starts_with (needle hay : string) : bool :=
  match needle, hay with
  | EmptyString, _ => true
  | String a n', String b h' => Ascii.eqb a b && starts_with n' h'
  | String _ _, EmptyString => false
  end.

Fixpoint contains (needle hay : string) : bool :=
  starts_with needle hay ||
  match hay with
  | EmptyString => false
  | String _ h' => contains needle h'
  end.

(** ** Exceptions *)

Inductive exc_kind : Type :=
| OSError | PermissionError | AttributeError | TypeError | ValueError
| RuntimeError | InvalidToken | UnicodeError.

Record exc : Type := mk_exc { exc_kind_of : exc_kind; exc_msg : string }.

Inductive res (A : Type) : Type :=
| Val (a : A)
| Raise (e : exc).
Arguments Val {A} a.
Arguments Raise {A} e.

Definition rbind {A B : Type} (m : res A) (f : A -> res B) : res B :=
  match m with Val a => f a | Raise e => Raise e end.

#[global] Instance res_ret : MRet res := fun _ a => Val a.
#[global] Instance res_bind : MBind res := fun _ _ f m => rbind m f.

Definition raises {A : Type} (m : res A) : bool :=
  match m with Val _ => false | Raise _ => true end.

(** [d.get(k)] / [d.get(k, default)]: an [AttributeError] when [d] is not
    a dict. *)
Definition py_get (d : json) (k : string) : res (option json) :=
  match d with
  | JObj kv => Val (assoc k kv)
  | _ => Raise (mk_exc AttributeError "object has no attribute 'get'")
  end.

Definition py_get_default (d : json) (k : string) (dflt : json) : res json :=
  o ← py_get d k;
  Val (match o with Some v => v | None => dflt end).

(** [a or b] on optional values. *)
Definition py_or (a b : option json) : option json :=
  if truthy_opt a then a else b.

(** ** The libraries *)

Inductive decrypt_result : Type :=
| Decrypted (plaintext : string)
| DecInvalidToken
| DecError.

Class Platform : Type := {
  (** [hashlib.sha256(b).hexdigest()] *)
  sha256_hex : string -> string;
  (** [Fernet(key)] succeeds *)
  fernet_valid : string -> bool;
  (** [Fernet.generate_key()], from the entropy the OS supplies *)
  fernet_generate_key : string -> string;
  (** [Fernet(key).encrypt(b)]: the token depends on a random IV and on
      the clock, both in the [string] argument *)
  fernet_encrypt : string -> string -> string -> string;
  (** [Fernet(key).decrypt(token)] *)
  fernet_decrypt : string -> string -> decrypt_result;
  b64encode : string -> string;
  (** [base64.b64decode] on a [str]; [None] when it raises *)
  b64decode : string -> option string;
  (** [json.dumps(v, default=str)] and [json.dump]; [None] when it raises *)
  json_dumps : json -> option string;
  (** [json.loads] / [json.load]; [None] when it raises *)
  json_loads : string -> option json;
  (** a file name matches a glob pattern of [Path.glob] *)
  glob_match : string -> string -> bool
}.

(** ** The archive directory *)

(** An entry of a date directory. *)
Inductive entry : Type :=
| File (content : string)
| Subdir.

(** An entry of [conversations/]. *)
Inductive node : Type :=
| DateDir (files : list (string * entry))
| Plain.

(** A wrapper path [conversations/<date>/<name>]. *)
Definition path : Type := (string * string)%type.

Inductive job_status : Type := pending | in_progress | completed | failed.

Record job : Type := mk_job {
  started_at : string;
  completed_at : option string;
  total_conversations : Z;
  successful_conversations : Z;
  failed_conversations : Z;
  errors : list string;
  status : job_status
}.

Record world : Type := mk_world {
  (** the entry [chats_archive/encryption_key] of the OS credential manager *)
  w_keyring : option string;
  (** [~/.chats_archive/.encryption_key] *)
  w_keyfile : option string;
  (** [<archive>/ARCHIVE.json] *)
  w_manifest : option string;
  (** [<archive>/conversations/], in the order [iterdir] lists it *)
  w_convs : list (string * node);
  (** the table [jobs] of [jobs.db] *)
  w_jobs : gmap string job
}.

Definition set_keyring (k : option string) (w : world) : world :=
  mk_world k (w_keyfile w) (w_manifest w) (w_convs w) (w_jobs w).
Definition set_keyfile (k : option string) (w : world) : world :=
  mk_world (w_keyring w) k (w_manifest w) (w_convs w) (w_jobs w).
Definition set_manifest (m : option string) (w : world) : world :=
  mk_world (w_keyring w) (w_keyfile w) m (w_convs w) (w_jobs w).
Definition set_convs (c : list (string * node)) (w : world) : world :=
  mk_world (w_keyring w) (w_keyfile w) (w_manifest w) c (w_jobs w).
Definition set_jobs (j : gmap string job) (w : world) : world :=
  mk_world (w_keyring w) (w_keyfile w) (w_manifest w) (w_convs w) j.

Definition lookup_file (c : list (string * node)) (p : path) : option entry :=
  match assoc (fst p) c with
  | Some (DateDir files) => assoc (snd p) files
  | _ => None
  end.

(** [filepath.stat().st_size if filepath.exists() else None] *)
Definition size_bytes_of (c : list (string * node)) (p : path) : option Z :=
  match lookup_file c p with
  | Some (File content) => Some (Z.of_nat (String.length content))
  | Some Subdir => Some 4096
  | None => None
  end.

(** [l] with [x] put at index [n] (at the end when [n] is too large): where
    the file system lists a new directory entry is its own business. *)
Definition insert_at {A : Type} (n : nat) (x : A) (l : list A) : list A :=
  take n l ++ x :: drop n l.

(** [str.strip()] on ASCII text. *)
Definition is_space (c : ascii) : bool :=
  let n := nat_of_ascii c in
  ((9 <=? n)%nat && (n <=? 13)%nat) || ((28 <=? n)%nat && (n <=? 32)%nat).

Fixpoint lstrip (s : string) : string :=
  match s with
  | String c rest => if is_space c then lstrip rest else s
  | EmptyString => EmptyString
  end.

Fixpoint rstrip (s : string) : string :=
  match s with
  | String c rest =>
      match rstrip rest with
      | EmptyString => if is_space c then EmptyString else String c EmptyString
      | r => String c r
      end
  | EmptyString => EmptyString
  end.

Definition strip (s : string) : string := rstrip (lstrip s).

(** ** EncryptionKeyManager *)

Inductive file_fault : Type :=
| NoFault
| FailMkdir
| FailOpen
| FailWrite (partial : string)
| FailChmod.

(** What the surroundings decide during one call of [get_or_create_key]. *)
Record key_env : Type := mk_key_env {
  (** [import keyring] succeeded *)
  has_keyring : bool;
  keyring_get_fails : bool;
  keyring_set_fails : bool;
  keyfile_read_fails : bool;
  keyfile_fault : file_fault;
  entropy : string
}.

(** [_store_key_locally] *)
Definition _store_key_locally (env : key_env) (key : string) (w : world)
  : res unit * world :=
  match keyfile_fault env with
  | FailMkdir | FailOpen => (Raise (mk_exc OSError "key file"), w)
  | FailWrite partial => (Raise (mk_exc OSError "key file"), set_keyfile (Some partial) w)
  | FailChmod => (Raise (mk_exc OSError "chmod"), set_keyfile (Some key) w)
  | NoFault => (Val tt, set_keyfile (Some key) w)
  end.

Section WithPlatform.
Context `{P : Platform}.

(** [get_or_create_key] *)
Definition get_or_create_key (env : key_env) (w : world) : res string * world :=
  let from_file_or_new :=
    let create :=
      let new_key := fernet_generate_key (entropy env) in
      if has_keyring env then
        if keyring_set_fails env then
          match _store_key_locally env new_key w with
          | (Val _, w') => (Val new_key, w')
          | (Raise e, w') => (Raise e, w')
          end
        else (Val new_key, set_keyring (Some new_key) w)
      else
        match _store_key_locally env new_key w with
        | (Val _, w') => (Val new_key, w')
        | (Raise e, w') => (Raise e, w')
        end in
    match w_keyfile w with
    | Some text =>
        if keyfile_read_fails env then (Raise (mk_exc OSError "read_text"), w)
        else
          let stored_key := strip text in
          if fernet_valid stored_key then (Val stored_key, w) else create
    | None => create
    end in
  if has_keyring env then
    if keyring_get_fails env then (Raise (mk_exc RuntimeError "keyring"), w)
    else
      match w_keyring w with
      | Some stored_key =>
          if negb (String.eqb stored_key "") && fernet_valid stored_key
          then (Val stored_key, w)
          else from_file_or_new
      | None => from_file_or_new
      end
  else from_file_or_new.

(** ** LocalEncryptedStore *)

Inductive IntegrityState : Type := VALID | CORRUPT | UNREADABLE | MISSING | UNKNOWN.

Record IntegrityResult : Type := mk_result {
  conversation_id : string;
  state : IntegrityState;
  filepath : option path;
  size_bytes : option Z;
  expected_checksum : option json;
  actual_checksum : option string;
  error_code : option string
}.

Record LocalEncryptedStore : Type := mk_store {
  encryption_key : string;
  key_fingerprint : string;
  _key_mismatch : bool
}.

Definition STORAGE_VERSION : string := "1.1".

(** What the surroundings decide during [__init__]. *)
Record init_env : Type := mk_init_env {
  init_key_env : key_env;
  init_now : string;
  manifest_read_fails : bool;
  manifest_write_fails : bool
}.

(** [_load_or_init_manifest]: the flag [_key_mismatch] it leaves, and the
    manifest file. *)
Definition _load_or_init_manifest (env : init_env) (fingerprint : string)
  (w : world) : bool * world :=
  match w_manifest w with
  | Some text =>
      if manifest_read_fails env then (true, w)
      else
        match json_loads text with
        | None => (true, w)
        | Some data =>
            match py_get data "key_fingerprint" with
            | Raise _ => (true, w)
            | Val fp =>
                (truthy_opt fp &&
                 negb (match fp with Some v => eq_str v fingerprint | None => false end),
                 w)
            end
        end
  | None =>
      let manifest := JObj [("version", JStr STORAGE_VERSION);
                            ("created_at", JStr (init_now env));
                            ("key_fingerprint", JStr fingerprint)] in
      match json_dumps manifest with
      | None => (true, w)
      | Some text =>
          if manifest_write_fails env then (true, w)
          else (false, set_manifest (Some text) w)
      end
  end.

(** [LocalEncryptedStore.__init__] *)
Definition store_init (env : init_env) (w : world)
  : res LocalEncryptedStore * world :=
  match get_or_create_key (init_key_env env) w with
  | (Raise e, w1) => (Raise e, w1)
  | (Val key, w1) =>
      if fernet_valid key then
        let fingerprint := prefix_n 16 (sha256_hex key) in
        let '(mismatch, w2) := _load_or_init_manifest env fingerprint w1 in
        (Val (mk_store key fingerprint mismatch), w2)
      else (Raise (mk_exc ValueError "Fernet key"), w1)
  end.

(** [_file_token] *)
Definition _file_token (conversation_id : string) : string :=
  prefix_n 16 (sha256_hex conversation_id).

Definition wrapper_name (conversation_id : string) : string :=
  "conv-" ++ _file_token conversation_id ++ ".enc".

(** [_wrapper_path_for] *)
Definition _wrapper_path_for (conversation_id date_str : string) : path :=
  (date_str, wrapper_name conversation_id).

(** [_iter_archive_files]: the paths in the order they are yielded, for a
    pattern [glob] accepts. *)
Definition _iter_archive_files (pattern : string) (c : list (string * node))
  : list path :=
  flat_map (fun dn : string * node =>
    match snd dn with
    | DateDir files =>
        map (fun ne : string * entry => (fst dn, fst ne))
            (filter (fun ne : string * entry => glob_match pattern (fst ne) = true) files)
    | Plain => []
    end) c.

(** ** Write path *)

Record store_env : Type := mk_store_env {
  today : string;
  now_iso : string;
  nonce : string;
  (** where the file system lists a directory or a file it creates *)
  dir_pos : nat;
  file_pos : nat;
  fault : file_fault
}.

(** [date_dir.mkdir(parents=True, exist_ok=True)] *)
Definition mkdir_date (env : store_env) (c : list (string * node))
  : res (list (string * node)) :=
  match fault env with
  | FailMkdir => Raise (mk_exc OSError "mkdir")
  | _ =>
      match assoc (today env) c with
      | Some (DateDir _) => Val c
      | Some Plain => Raise (mk_exc OSError "FileExistsError")
      | None => Val (insert_at (dir_pos env) (today env, DateDir []) c)
      end
  end.

(** The files of a directory after [name] is given [content]: an existing
    entry keeps its place. *)
Definition put_file (pos : nat) (name content : string)
  (files : list (string * entry)) : list (string * entry) :=
  match assoc name files with
  | Some _ => assoc_set name (File content) files
  | None => insert_at pos (name, File content) files
  end.

Definition write_wrapper (pos : nat) (p : path) (content : string)
  (c : list (string * node)) : list (string * node) :=
  match assoc (fst p) c with
  | Some (DateDir files) =>
      assoc_set (fst p) (DateDir (put_file pos (snd p) content files)) c
  | _ => c
  end.

(** [metadata_dict.get('id') or metadata_dict.get('conversation_id', 'unknown')]
    and the two lines after it. *)
Definition store_conv_id (metadata_dict : json) : res json :=
  a ← py_get metadata_dict "id";
  b ← py_get_default metadata_dict "conversation_id" (JStr "unknown");
  let conv_id := match a with
                 | Some v => if truthy v then v else b
                 | None => b
                 end in
  Val (if negb (truthy conv_id) || eq_str conv_id "unknown"
       then (if truthy conv_id then conv_id else JStr "unknown")
       else conv_id).

(** [x.encode()]: only a [str] has it. *)
Definition py_encode (v : json) : res string :=
  match v with
  | JStr s => Val s
  | _ => Raise (mk_exc AttributeError "object has no attribute 'encode'")
  end.

Definition of_option {A : Type} (o : option A) (e : exc) : res A :=
  match o with Some a => Val a | None => Raise e end.

Definition stored_obj (metadata_dict : json) (encrypted_b64 checksum now : string)
  : json :=
  JObj [("metadata", metadata_dict);
        ("encrypted_content", JStr encrypted_b64);
        ("encryption_version", JStr "fernet-v1");
        ("checksum", JStr checksum);
        ("archived_at", JStr now);
        ("version", JStr STORAGE_VERSION)].

(** The body of the [try] of [store_conversation]: the directory tree it
    leaves, and whether it raised. *)
Definition store_try (st : LocalEncryptedStore) (env : store_env)
  (conversation metadata_dict : json) (c : list (string * node))
  : res unit * list (string * node) :=
  match json_dumps conversation with
  | None => (Raise (mk_exc TypeError "not JSON serializable"), c)
  | Some conversation_bytes =>
      let checksum := sha256_hex conversation_bytes in
      let encrypted := fernet_encrypt (encryption_key st) (nonce env) conversation_bytes in
      let encrypted_b64 := b64encode encrypted in
      match mkdir_date env c with
      | Raise e => (Raise e, c)
      | Val c1 =>
          match (v ← store_conv_id metadata_dict; py_encode v) with
          | Raise e => (Raise e, c1)
          | Val conv_id =>
              let fp := _wrapper_path_for conv_id (today env) in
              let obj := stored_obj metadata_dict encrypted_b64 checksum (now_iso env) in
              match fault env, lookup_file c1 fp with
              | FailOpen, _ => (Raise (mk_exc OSError "open"), c1)
              | _, Some Subdir => (Raise (mk_exc OSError "IsADirectoryError"), c1)
              | FailWrite partial, _ =>
                  (Raise (mk_exc OSError "write"),
                   write_wrapper (file_pos env) fp partial c1)
              | flt, _ =>
                  match json_dumps obj with
                  | None =>
                      (Raise (mk_exc TypeError "not JSON serializable"),
                       write_wrapper (file_pos env) fp "" c1)
                  | Some text =>
                      let c2 := write_wrapper (file_pos env) fp text c1 in
                      match flt with
                      | FailChmod => (Raise (mk_exc OSError "chmod"), c2)
                      | _ => (Val tt, c2)
                      end
                  end
              end
          end
      end
  end.

(** [store_conversation]: [except Exception] turns every failure into
    [False]. *)
Definition store_conversation (st : LocalEncryptedStore) (env : store_env)
  (conversation metadata_dict : json) (w : world) : res bool * world :=
  match store_try st env conversation metadata_dict (w_convs w) with
  | (Val _, c) => (Val true, set_convs c w)
  | (Raise _, c) => (Val false, set_convs c w)
  end.

(** ** Verification primitives *)

(** [_load_wrapper]: [None] when the file cannot be opened or decoded. *)
Definition _load_wrapper (c : list (string * node)) (fp : path) : option json :=
  match lookup_file c fp with
  | Some (File content) => json_loads content
  | _ => None
  end.

(** [_decrypt_bytes]: the plaintext, or an error code.  The caller has
    already called [wrapper.get], so [wrapper] is a dict here. *)
Definition _decrypt_bytes (st : LocalEncryptedStore) (wrapper : json)
  : res (string + string) :=
  encrypted_b64 ← py_get_default wrapper "encrypted_content" (JStr "");
  if negb (truthy encrypted_b64) then Val (inr "WRAPPER_NO_CONTENT")
  else
    match (match encrypted_b64 with JStr s => b64decode s | _ => None end) with
    | None => Val (inr "WRAPPER_B64_DECODE_FAIL")
    | Some encrypted =>
        match fernet_decrypt (encryption_key st) encrypted with
        | Decrypted decrypted_bytes => Val (inl decrypted_bytes)
        | DecInvalidToken => Val (inr "DECRYPT_INVALID_TOKEN")
        | DecError => Val (inr "DECRYPT_FAIL")
        end
    end.

(** [_verify_wrapper].  [_decrypt_bytes] gives an error code whenever it
    gives no plaintext, so the state of the first branch is [UNREADABLE]
    and its code is [err]. *)
Definition _verify_wrapper (st : LocalEncryptedStore) (c : list (string * node))
  (conversation_id : string) (fp : path) (wrapper : json) (return_content : bool)
  : res (IntegrityResult * option json) :=
  expected_checksum ← py_get wrapper "checksum";
  d ← _decrypt_bytes st wrapper;
  match d with
  | inr err =>
      Val (mk_result conversation_id UNREADABLE (Some fp) (size_bytes_of c fp)
             expected_checksum None (Some err), None)
  | inl decrypted_bytes =>
      let actual_checksum := sha256_hex decrypted_bytes in
      if truthy_opt expected_checksum &&
         negb (match expected_checksum with
               | Some v => eq_str v actual_checksum
               | None => false
               end)
      then
        Val (mk_result conversation_id CORRUPT (Some fp) (size_bytes_of c fp)
               expected_checksum (Some actual_checksum) (Some "CHECKSUM_MISMATCH"),
             None)
      else
        let res_valid :=
          mk_result conversation_id VALID (Some fp) (size_bytes_of c fp)
            expected_checksum (Some actual_checksum) None in
        if negb return_content then Val (res_valid, None)
        else
          match json_loads decrypted_bytes with
          | Some content => Val (res_valid, Some content)
          | None =>
              Val (mk_result conversation_id UNKNOWN (Some fp) (size_bytes_of c fp)
                     expected_checksum (Some actual_checksum)
                     (Some "JSON_DECODE_FAIL"), None)
          end
  end.

(** ** Lookup helpers *)

(** [_find_by_new_token] *)
Definition _find_by_new_token (c : list (string * node)) (conversation_id : string)
  : option path :=
  head (_iter_archive_files (wrapper_name conversation_id) c).

(** The components of a glob pattern, between the separators. *)
Fixpoint components_from (acc : string) (s : string) : list string :=
  match s with
  | EmptyString => [acc]
  | String c rest =>
      if Ascii.eqb c (ascii_of_nat 47) then acc :: components_from "" rest
      else components_from (acc ++ String c "") rest
  end.

(** [Path.glob] refuses a pattern in which [**] is part of a component
    without being the whole of it: it raises [ValueError] when the first
    directory is globbed. *)
Definition glob_refused (pattern : string) : bool :=
  existsb (fun comp => contains "**" comp && negb (String.eqb comp "**"))
          (components_from "" pattern).

Definition has_date_dir (c : list (string * node)) : bool :=
  existsb (fun dn : string * node =>
             match snd dn with DateDir _ => true | Plain => false end) c.

(** [_find_by_legacy_prefix]: the pattern is made of the identifier as it
    is, so [glob] may refuse it. *)
Definition _find_by_legacy_prefix (c : list (string * node)) (conversation_id : string)
  : res (option path) :=
  let pattern := "conv-" ++ prefix_n 8 conversation_id ++ "*.enc" in
  if glob_refused pattern && has_date_dir c
  then Raise (mk_exc ValueError
                "Invalid pattern: '**' can only be an entire path component")
  else Val (head (_iter_archive_files pattern c)).

(** The loop of [_find_by_metadata_scan] over the files still to visit. *)
Fixpoint metadata_scan (c : list (string * node)) (conversation_id : string)
  (fps : list path) : res (option path) :=
  match fps with
  | [] => Val None
  | fp :: rest =>
      match _load_wrapper c fp with
      | None => metadata_scan c conversation_id rest
      | Some wrapper =>
          if negb (truthy wrapper) then metadata_scan c conversation_id rest
          else
            md ← py_get_default wrapper "metadata" (JObj []);
            a ← py_get md "id";
            b ← py_get md "conversation_id";
            if (match py_or a b with
                | Some cid => eq_str cid conversation_id
                | None => false
                end)
            then Val (Some fp)
            else metadata_scan c conversation_id rest
      end
  end.

(** [_find_by_metadata_scan] *)
Definition _find_by_metadata_scan (c : list (string * node)) (conversation_id : string)
  : res (option path) :=
  metadata_scan c conversation_id (_iter_archive_files "conv-*.enc" c).

(** [find_wrapper_path_for_conversation] *)
Definition find_wrapper_path_for_conversation (c : list (string * node))
  (conversation_id : string) : res (option path) :=
  match _find_by_new_token c conversation_id with
  | Some fp => Val (Some fp)
  | None =>
      legacy ← _find_by_legacy_prefix c conversation_id;
      match legacy with
      | Some fp => Val (Some fp)
      | None => _find_by_metadata_scan c conversation_id
      end
  end.

(** ** Public verification API *)

(** [_ensure_key_matches_manifest] *)
Definition _ensure_key_matches_manifest (st : LocalEncryptedStore) : bool :=
  negb (_key_mismatch st).

(** [verify_conversation] *)
Definition verify_conversation (st : LocalEncryptedStore) (w : world)
  (conversation_id : string) : res IntegrityResult :=
  if negb (_ensure_key_matches_manifest st) then
    Val (mk_result conversation_id UNREADABLE None None None None
           (Some "WRONG_KEY_MANIFEST_MISMATCH"))
  else
    found ← find_wrapper_path_for_conversation (w_convs w) conversation_id;
    match found with
    | None =>
        Val (mk_result conversation_id MISSING None None None None (Some "NOT_FOUND"))
    | Some fp =>
        match _load_wrapper (w_convs w) fp with
        | Some wrapper =>
            if truthy wrapper then
              r ← _verify_wrapper st (w_convs w) conversation_id fp wrapper false;
              Val (fst r)
            else
              Val (mk_result conversation_id UNKNOWN (Some fp) None None None
                     (Some "WRAPPER_LOAD_FAIL"))
        | None =>
            Val (mk_result conversation_id UNKNOWN (Some fp) None None None
                   (Some "WRAPPER_LOAD_FAIL"))
        end
    end.

Definition is_valid (s : IntegrityState) : bool :=
  match s with VALID => true | _ => false end.

(** [has_valid_conversation] *)
Definition has_valid_conversation (st : LocalEncryptedStore) (w : world)
  (conversation_id : string) : res bool :=
  result ← verify_conversation st w conversation_id;
  Val (is_valid (state result)).

(** [retrieve_conversation]: Python's [None] is [JNull]. *)
Definition retrieve_conversation (st : LocalEncryptedStore) (w : world)
  (conversation_id : string) : res json :=
  if negb (_ensure_key_matches_manifest st) then Val JNull
  else
    found ← find_wrapper_path_for_conversation (w_convs w) conversation_id;
    match found with
    | None => Val JNull
    | Some fp =>
        match _load_wrapper (w_convs w) fp with
        | Some wrapper =>
            if truthy wrapper then
              r ← _verify_wrapper st (w_convs w) conversation_id fp wrapper true;
              if negb (is_valid (state (fst r))) then Val JNull
              else Val (match snd r with Some content => content | None => JNull end)
            else Val JNull
        | None => Val JNull
        end
    end.

(** ** JobTracker *)

(** [create_job]: the primary key rejects an id that is taken. *)
Definition create_job (job_id now : string) (w : world) : res string * world :=
  match w_jobs w !! job_id with
  | Some _ => (Raise (mk_exc RuntimeError "IntegrityError"), w)
  | None =>
      (Val job_id,
       set_jobs (<[job_id := mk_job now None 0 0 0 [] pending]> (w_jobs w)) w)
  end.

(** The keyword arguments of [update_job_status]. *)
Record job_update : Type := mk_job_update {
  u_total : option Z;
  u_successful : option Z;
  u_failed : option Z;
  u_errors : option (list string)
}.

Definition no_update : job_update := mk_job_update None None None None.

Definition is_terminal (s : job_status) : bool :=
  match s with completed | failed => true | _ => false end.

Definition apply_update (new_status : job_status) (u : job_update) (now : string)
  (j : job) : job :=
  mk_job (started_at j)
         (if is_terminal new_status then Some now else completed_at j)
         (default (total_conversations j) (u_total u))
         (default (successful_conversations j) (u_successful u))
         (default (failed_conversations j) (u_failed u))
         (default (errors j) (u_errors u))
         new_status.

(** [update_job_status]: every [UPDATE ... WHERE job_id = ?] touches the
    row of that job, or nothing. *)
Definition update_job_status (job_id : string) (new_status : job_status)
  (u : job_update) (now : string) (w : world) : world :=
  set_jobs (alter (apply_update new_status u now) job_id (w_jobs w)) w.

(** [get_job] *)
Definition get_job (job_id : string) (w : world) : option job := w_jobs w !! job_id.

(** ** ArchiveOrchestrator *)

(** An entry of the listing: a dict whose ['id'], when present, is a string
    ([ConversationMetadata.conversation_id : str]). *)
Record conv_metadata : Type := mk_conv_metadata {
  meta_id : option string;
  meta_fields : list (string * json)
}.

Definition meta_dict (m : conv_metadata) : list (string * json) :=
  let others :=
    filter (fun kv : string * json => String.eqb (fst kv) "id" = false) (meta_fields m) in
  match meta_id m with
  | Some i => ("id", JStr i) :: others
  | None => others
  end.

(** What the surroundings decide while one entry is processed. *)
Record item_env : Type := mk_item_env {
  (** [fetcher.fetch_conversation_detail(conv_id)]; [None] is [JNull] *)
  detail : res json;
  item_store_env : store_env
}.

(** The counters of the loop.  [detail_failures] and [detail_401] only feed
    the messages printed at the end and are left out. *)
Record counters : Type := mk_counters {
  successful : Z;
  failed_count : Z;
  errs : list string;
  consecutive_detail_failures : Z
}.

Definition count_success (k : counters) : counters :=
  mk_counters (successful k + 1) (failed_count k) (errs k) (consecutive_detail_failures k).

(** A failure of the detail fetch: the consecutive counter goes up. *)
Definition count_detail_failure (tag : string) (k : counters) : counters :=
  mk_counters (successful k) (failed_count k + 1) (errs k ++ [tag])
              (consecutive_detail_failures k + 1).

Definition count_storage_failure (tag : string) (k : counters) : counters :=
  mk_counters (successful k) (failed_count k + 1) (errs k ++ [tag]) 0.

(** The warning of the end of the loop body resets the counter. *)
Definition early_warning (k : counters) : counters :=
  if 25 <=? consecutive_detail_failures k
  then mk_counters (successful k) (failed_count k) (errs k) 0
  else k.

(** [md = dict(conv_metadata)] with its provenance. *)
Definition stored_metadata (m : conv_metadata) (job_id : string) : json :=
  let md := meta_dict m in
  let md1 := assoc_set "source" (default (JStr "fetch") (assoc "source" md)) md in
  JObj (assoc_set "job_id" (JStr job_id) md1).

(** One turn of the loop of [_run_export_locked]. *)
Definition process_item (st : LocalEncryptedStore) (force_refetch : bool)
  (job_id : string) (ienv : item_env) (m : conv_metadata)
  (acc : counters * world) : counters * world :=
  let '(k, w) := acc in
  let conv_id := default "unknown" (meta_id m) in
  let tag kind := kind ++ ":" ++ prefix_n 8 conv_id in
  let fetch_and_store :=
    match detail ienv with
    | Raise e =>
        if (match exc_kind_of e with PermissionError => true | _ => false end)
        then (early_warning (count_detail_failure (tag "auth_failed") k), w)
        else (early_warning (count_detail_failure (tag "detail_error") k), w)
    | Val full_conv =>
        if truthy full_conv then
          match store_conversation st (item_store_env ienv) full_conv
                  (stored_metadata m job_id) w with
          | (Val true, w') =>
              (early_warning
                 (mk_counters (successful k + 1) (failed_count k) (errs k) 0), w')
          | (Val false, w') =>
              (early_warning (count_storage_failure (tag "storage_failed") k), w')
          | (Raise _, w') =>
              (early_warning
                 (count_detail_failure (tag "detail_error")
                    (mk_counters (successful k) (failed_count k) (errs k) 0)), w')
          end
        else (early_warning (count_detail_failure (tag "fetch_failed") k), w)
    end in
  if negb force_refetch && negb (String.eqb conv_id "unknown") then
    match has_valid_conversation st w conv_id with
    | Val true => (count_success k, w)
    | Val false => fetch_and_store
    | Raise _ => (early_warning (count_detail_failure (tag "detail_error") k), w)
    end
  else fetch_and_store.

(** The loop, over the entries still to process; [i] counts from 1. *)
Fixpoint export_loop (st : LocalEncryptedStore) (force_refetch : bool)
  (job_id : string) (ienv : nat -> item_env) (i : nat)
  (l : list conv_metadata) (acc : counters * world) : counters * world :=
  match l with
  | [] => acc
  | m :: rest =>
      export_loop st force_refetch job_id ienv (S i) rest
        (process_item st force_refetch job_id (ienv i) m acc)
  end.

Inductive outcome : Type :=
| Returned (job_id : string)
| Raised (e : exc)
(** a [KeyboardInterrupt], which [except Exception] does not catch *)
| Interrupted.

(** What the surroundings decide during one call of [_run_export_locked]. *)
Record export_env : Type := mk_export_env {
  fresh_job_id : string;
  now_started : string;
  now_finished : string;
  (** [token_manager.retrieve_token()] *)
  token : option string;
  env_init : init_env;
  (** [None] when [validate_api_status] answers [APIStatus.OK] *)
  api_problem : option string;
  (** [fetcher.validate_token()] *)
  token_ok : bool;
  (** [fetch_all_conversations().get("conversations", [])] *)
  listing : res (list conv_metadata);
  items_env : nat -> item_env;
  (** the run is interrupted after that many entries *)
  interrupt_after : option nat
}.

Definition zero_counters : counters := mk_counters 0 0 [] 0.

Definition final_update (n : nat) (k : counters) : job_update :=
  mk_job_update (Some (Z.of_nat n)) (Some (successful k)) (Some (failed_count k))
                (Some (errs k)).

Definition error_update (msg : string) : job_update :=
  mk_job_update None None None (Some [msg]).

(** [_run_export_locked] *)
Definition _run_export_locked (env : export_env) (resume_job_id : option string)
  (force_refetch : bool) (w : world) : outcome * world :=
  let start :=
    if (match resume_job_id with
        | Some j => negb (String.eqb j "")
        | None => false
        end)
    then
      let job_id := default "" resume_job_id in
      match get_job job_id w with
      | Some _ => (Val job_id, w)
      | None => (Raise (mk_exc ValueError ("Job " ++ job_id ++ " not found")), w)
      end
    else create_job (fresh_job_id env) (now_started env) w in
  match start with
  | (Raise e, w0) => (Raised e, w0)
  | (Val job_id, w0) =>
      let w1 := update_job_status job_id in_progress no_update (now_started env) w0 in
      let fail (e : exc) (w' : world) :=
        (Raised e,
         update_job_status job_id failed (error_update (exc_msg e)) (now_finished env) w') in
      match token env with
      | None => fail (mk_exc RuntimeError "No auth token available") w1
      | Some auth_token =>
          if String.eqb auth_token "" then
            fail (mk_exc RuntimeError "No auth token available") w1
          else if (String.length auth_token <? 20)%nat then
            fail (mk_exc ValueError "Invalid auth token format") w1
          else
            match store_init (env_init env) w1 with
            | (Raise e, w2) => fail e w2
            | (Val st, w2) =>
                match api_problem env with
                | Some message =>
                    (Returned job_id,
                     update_job_status job_id failed (error_update message)
                       (now_finished env) w2)
                | None =>
                    if negb (token_ok env) then
                      fail (mk_exc RuntimeError "Auth token validation failed") w2
                    else
                      match listing env with
                      | Raise e => fail e w2
                      | Val conversations_list =>
                          let n := length conversations_list in
                          let run l :=
                            export_loop st force_refetch job_id (items_env env) 1 l
                              (zero_counters, w2) in
                          match interrupt_after env with
                          | Some k =>
                              if (k <? n)%nat
                              then (Interrupted, snd (run (take k conversations_list)))
                              else
                                let '(cnt, w3) := run conversations_list in
                                (Returned job_id,
                                 update_job_status job_id completed (final_update n cnt)
                                   (now_finished env) w3)
                          | None =>
                              let '(cnt, w3) := run conversations_list in
                              (Returned job_id,
                               update_job_status job_id completed (final_update n cnt)
                                 (now_finished env) w3)
                          end
                      end
                end
            end
      end
  end.

End WithPlatform.

(** ** LockFile *)

Inductive backend : Type := Fcntl | Msvcrt | Marker.

(** Who holds the exclusive lock of the lock path: nobody, an open file of
    this process, or another process. *)
Inductive lock_holder : Type :=
| Free
| HeldBy (h : nat)
| HeldElsewhere.

(** The lock as the operating system sees it: the files this process has
    open on the lock path, and the holder of the exclusive lock. *)
Record os_lock : Type := mk_os_lock {
  open_files : list nat;
  holder : lock_holder;
  next_handle : nat
}.

(** The lock a file held is dropped. *)
Definition drop_lock (h : nat) (l : lock_holder) : lock_holder :=
  match l with
  | HeldBy h' => if Nat.eqb h' h then Free else HeldBy h'
  | _ => l
  end.

Record LockFile : Type := mk_lock_file {
  lock_backend : backend;
  lock_file : option nat;
  _lock_acquired : bool
}.

(** [LockFile.__init__] *)
Definition lock_init (b : backend) : LockFile := mk_lock_file b None false.

(** Closing a file drops the lock it holds. *)
Definition os_close (h : nat) (o : os_lock) : os_lock :=
  mk_os_lock (filter (fun h' => h' ≠ h) (open_files o))
             (drop_lock h (holder o))
             (next_handle o).

(** [_close_file]: a failure of [close()] is swallowed. *)
Definition _close_file (s : LockFile * os_lock) : LockFile * os_lock :=
  match lock_file (fst s) with
  | Some h =>
      (mk_lock_file (lock_backend (fst s)) None (_lock_acquired (fst s)),
       os_close h (snd s))
  | None => s
  end.

(** What the surroundings decide during one attempt of [acquire]. *)
Record attempt_env : Type := mk_attempt_env {
  open_fails : bool;
  (** the lock call, or the marker write, fails for a reason of its own *)
  lock_call_fails : bool;
  chmod_fails : bool;
  (** an exception that is no [OSError] *)
  other_exception : bool;
  (** [time.time() - start] after the attempt, in milliseconds *)
  elapsed_ms : Z
}.

Inductive attempt_result : Type :=
| Acquired
| FailedOS
| FailedOther.

(** The body of the [try] of [acquire].  Binding [self.lock_file] to the
    new file drops the last reference to the old one, which closes it. *)
Definition acquire_try (a : attempt_env) (s : LockFile * os_lock)
  : attempt_result * (LockFile * os_lock) :=
  let '(lf, o) := s in
  if open_fails a then (FailedOS, s)
  else
    let h := next_handle o in
    let o1 := mk_os_lock (h :: open_files o) (holder o) (S h) in
    let o2 := match lock_file lf with Some old => os_close old o1 | None => o1 end in
    let lf1 := mk_lock_file (lock_backend lf) (Some h) (_lock_acquired lf) in
    if other_exception a then (FailedOther, (lf1, o2))
    else
      let locked :=
        match lock_backend lf with
        | Marker => if lock_call_fails a then None else Some o2
        | _ =>
            if lock_call_fails a then None
            else match holder o2 with
                 | Free => Some (mk_os_lock (open_files o2) (HeldBy h) (next_handle o2))
                 | _ => None
                 end
        end in
      match locked with
      | None => (FailedOS, (lf1, o2))
      | Some o3 =>
          if chmod_fails a then (FailedOS, (lf1, o3))
          else (Acquired, (mk_lock_file (lock_backend lf) (Some h) true, o3))
      end.

(** [acquire]: one attempt per element of [attempts]; [None] when the
    attempts given do not reach the end of the loop. *)
Fixpoint acquire (timeout_ms : Z) (attempts : list attempt_env)
  (s : LockFile * os_lock) : option (bool * (LockFile * os_lock)) :=
  match attempts with
  | [] => None
  | a :: rest =>
      match acquire_try a s with
      | (Acquired, s') => Some (true, s')
      | (FailedOS, s') =>
          let s'' := _close_file s' in
          if (timeout_ms <=? 0) || (timeout_ms <=? elapsed_ms a)
          then Some (false, s'')
          else acquire timeout_ms rest s''
      | (FailedOther, s') => Some (false, _close_file s')
      end
  end.

(** What the surroundings decide during [release]. *)
Record release_env : Type := mk_release_env {
  unlock_fails : bool
}.

(** The unlocking call of [release], which raises when there is no file. *)
Definition unlock_try (r : release_env) (s : LockFile * os_lock) : res os_lock :=
  match lock_backend (fst s) with
  | Marker => Val (snd s)
  | _ =>
      match lock_file (fst s) with
      | None => Raise (mk_exc TypeError "argument must be an int, or have a fileno() method")
      | Some h =>
          if unlock_fails r then Raise (mk_exc OSError "unlock")
          else
            Val (mk_os_lock (open_files (snd s)) (drop_lock h (holder (snd s)))
                   (next_handle (snd s)))
      end
  end.

(** [release]: [except Exception: pass], then the [finally] block. *)
Definition release (r : release_env) (s : LockFile * os_lock)
  : res unit * (LockFile * os_lock) :=
  if negb (_lock_acquired (fst s)) then (Val tt, s)
  else
    let o1 := match unlock_try r s with Val o => o | Raise _ => snd s end in
    let '(lf2, o2) := _close_file (fst s, o1) in
    (Val tt, (mk_lock_file (lock_backend lf2) (lock_file lf2) false, o2)).

(** The steps a lock file and the lock of its path go through: calls of
    [acquire] and [release], and other processes taking or freeing the
    lock. *)
Inductive lock_step : LockFile * os_lock -> LockFile * os_lock -> Prop :=
| step_acquire timeout_ms attempts s b s' :
    acquire timeout_ms attempts s = Some (b, s') -> lock_step s s'
| step_release r s :
    lock_step s (snd (release r s))
| step_other_takes lf o :
    holder o = Free ->
    lock_step (lf, o) (lf, mk_os_lock (open_files o) HeldElsewhere (next_handle o))
| step_other_frees lf o :
    holder o = HeldElsewhere ->
    lock_step (lf, o) (lf, mk_os_lock (open_files o) Free (next_handle o)).

Inductive lock_reachable (b : backend) : LockFile * os_lock -> Prop :=
| reach_init l :
    l = Free \/ l = HeldElsewhere ->
    lock_reachable b (lock_init b, mk_os_lock [] l 0)
| reach_step s s' :
    lock_reachable b s -> lock_step s s' -> lock_reachable b s'.

(** The lock is released: the object holds no file and no lock. *)
Definition released (s : LockFile * os_lock) : Prop :=
  _lock_acquired (fst s) = false /\
  lock_file (fst s) = None /\
  open_files (snd s) = [] /\
  (forall h, holder (snd s) <> HeldBy h).

(** ** ArchiveOrchestrator.run_export *)

(** What the surroundings decide during one call of [run_export]: the
    platform of the lock file, the attempts of [acquire], the unlocking
    call, and the run under the lock. *)
Record run_env : Type := mk_run_env {
  run_backend : backend;
  lock_path : string;
  run_attempts : list attempt_env;
  run_release : release_env;
  run_export_env : export_env
}.

Section RunExport.

Context `{P : Platform}.

(** [run_export]: [__enter__] acquires a new lock file with a timeout of
    five seconds and raises when that fails; [__exit__] releases and lets
    an exception through.  [None] when the attempts given do not reach the
    end of [acquire]. *)
Definition run_export (env : run_env) (resume_job_id : option string)
  (force_refetch : bool) (s : os_lock * world) : option (outcome * (os_lock * world)) :=
  match acquire 5000 (run_attempts env) (lock_init (run_backend env), fst s) with
  | None => None
  | Some (false, (_, o)) =>
      Some (Raised (mk_exc RuntimeError ("Could not acquire lock at " ++ lock_path env)),
            (o, snd s))
  | Some (true, held) =>
      let '(out, w') :=
        _run_export_locked (run_export_env env) resume_job_id force_refetch (snd s) in
      Some (out, (snd (snd (release (run_release env) held)), w'))
  end.

End RunExport.

(** ** TokenManager *)

(** [str.lower()] on ASCII text. *)
Definition lower_char (c : ascii) : ascii :=
  let n := nat_of_ascii c in
  if ((65 <=? n)%nat && (n <=? 90)%nat) then ascii_of_nat (n + 32) else c.

Fixpoint lower (s : string) : string :=
  match s with
  | EmptyString => EmptyString
  | String c s' => String (lower_char c) (lower s')
  end.

(** The places a session token lives in: the entry of the credential
    manager, and the file [.env.local]. *)
Record token_world : Type := mk_token_world {
  t_keyring : option string;
  t_env_file : option string
}.

(** What can go wrong with [.env.local]: reading it, opening it for
    writing, the write (which leaves a part), the [chmod]. *)
Inductive env_file_fault : Type :=
| EnvOk
| EnvReadFails
| EnvOpenFails
| EnvWriteFails (partial : string)
| EnvChmodFails.

(** What the surroundings decide during a call of a [TokenManager]. *)
Record token_env : Type := mk_token_env {
  (** [import keyring] succeeded *)
  t_has_keyring : bool;
  (** the call of the credential manager raises *)
  t_keyring_fails : bool;
  (** [os.getenv('CHATGPT_AUTH_TOKEN')] *)
  t_environ : option string;
  (** [sys.stdin.isatty()] *)
  t_isatty : bool;
  (** [input(...)]; [None] when it raises *)
  t_answer : option string;
  t_file_fault : env_file_fault
}.

(** [_confirm_env_fallback] *)
Definition _confirm_env_fallback (env : token_env) (force : bool) : res bool :=
  if force then Val true
  else if negb (t_isatty env) then Val false
  else
    match t_answer env with
    | None => Raise (mk_exc RuntimeError "EOFError")
    | Some text =>
        let response := lower (strip text) in
        Val (String.eqb response "y" || String.eqb response "yes")
    end.

(** The line [_store_env_fallback] writes. *)
Definition env_line (token : string) : string :=
  "CHATGPT_AUTH_TOKEN=" ++ String (ascii_of_nat 34) token
  ++ String (ascii_of_nat 34) (String (ascii_of_nat 10) "").

(** [_store_env_fallback] *)
Definition _store_env_fallback (env : token_env) (token : string) (w : token_world)
  : res unit * token_world :=
  let write :=
    match t_file_fault env with
    | EnvOpenFails => (Raise (mk_exc OSError "open"), w)
    | EnvWriteFails partial =>
        (Raise (mk_exc OSError "write"), mk_token_world (t_keyring w) (Some partial))
    | EnvChmodFails =>
        (Raise (mk_exc OSError "chmod"),
         mk_token_world (t_keyring w) (Some (env_line token)))
    | _ => (Val tt, mk_token_world (t_keyring w) (Some (env_line token)))
    end in
  match t_env_file w with
  | Some content =>
      match t_file_fault env with
      | EnvReadFails => (Raise (mk_exc OSError "read"), w)
      | _ => if contains "CHATGPT_AUTH_TOKEN" content then (Val tt, w) else write
      end
  | None => write
  end.

(** [store_token]: [except Exception] turns a failure into [False]. *)
Definition store_token (env : token_env) (token : json) (force_env_fallback : bool)
  (w : token_world) : bool * token_world :=
  match token with
  | JStr t =>
      if String.eqb t "" then (false, w)
      else if t_has_keyring env then
        if t_keyring_fails env then (false, w)
        else (true, mk_token_world (Some t) (t_env_file w))
      else
        match _confirm_env_fallback env force_env_fallback with
        | Val true =>
            match _store_env_fallback env t w with
            | (Val _, w') => (true, w')
            | (Raise _, w') => (false, w')
            end
        | Val false => (false, w)
        | Raise _ => (false, w)
        end
  | _ => (false, w)
  end.

(** [retrieve_token] *)
Definition retrieve_token (env : token_env) (w : token_world) : option string :=
  let from_environ :=
    match t_environ env with
    | Some t => if String.eqb t "" then None else Some t
    | None => None
    end in
  if t_has_keyring env then
    if t_keyring_fails env then None
    else
      match t_keyring w with
      | Some t => if String.eqb t "" then from_environ else Some t
      | None => from_environ
      end
  else from_environ.

(** [delete_token]: deleting an entry that does not exist raises in the
    credential manager. *)
Definition delete_token (env : token_env) (w : token_world) : bool * token_world :=
  if t_has_keyring env then
    if t_keyring_fails env then (false, w)
    else
      match t_keyring w with
      | Some _ => (true, mk_token_world None (t_env_file w))
      | None => (false, w)
      end
  else (false, w).

(** [validate_token] *)
Definition validate_token (token : json) : bool :=
  match token with
  | JStr t => negb (String.eqb t "") && negb (String.length t <? 20)%nat
  | _ => false
  end.

(** [ConversationFetcher.__init__]: the token it accepts. *)
Definition fetcher_init (auth_token : string) : res string :=
  if String.eqb auth_token "" || (String.length auth_token <? 20)%nat
  then Raise (mk_exc ValueError "Invalid auth token format")
  else Val auth_token.

(** ** ConversationFetcher *)

Module Fetcher.

Inductive APIStatus : Type := OK | DEPRECATED | BLOCKED | UNREACHABLE | UNKNOWN.

(** What one request meets: a response, or an exception of [requests]. *)
Inductive http_reply : Type :=
| Reply (status_code : Z) (text : string)
| TimedOut
| ConnectionFailed
| OtherFailure (msg : string).

(** The exceptions that leave the fetcher. *)
Inductive fetch_exc : Type :=
(** [PermissionError] *)
| PermissionDenied (msg : string)
(** [Exception("API error: <status>")] *)
| ApiError (status_code : Z)
| RequestTimeout
| RequestConnection
| RequestOther (msg : string)
(** [response.json()] raises *)
| BodyNotJson
(** [data.get] on what is no dict *)
| NoGet
(** [len] of what has no length *)
| NoLen
(** the [RuntimeError] of [fetch_all_conversations] *)
| ApiNotAvailable (status : APIStatus) (message : string).

Inductive fres (A : Type) : Type :=
| Got (a : A)
| Fails (e : fetch_exc).

Arguments Got {A} a.
Arguments Fails {A} e.

(** The requests made so far, and the time spent in [time.sleep], in
    milliseconds.  The remote side answers the n-th request as it
    pleases. *)
Record net : Type := mk_net {
  requests : nat;
  slept_ms : Z
}.

Definition requested (s : net) : net := mk_net (S (requests s)) (slept_ms s).
Definition sleep (ms : Z) (s : net) : net := mk_net (requests s) (slept_ms s + ms).

Definition MAX_RETRIES : nat := 3.
Definition DEFAULT_BATCH_SIZE : Z := 100.

(** [INITIAL_BACKOFF_SECONDS * (2 ** attempt)] *)
Definition backoff_ms (attempt : nat) : Z := 2000 * 2 ^ Z.of_nat attempt.

(** [len(x)], and the elements [list.extend] takes from [x]. *)
Definition py_len (v : json) : option nat :=
  match v with
  | JArr l => Some (length l)
  | JStr s => Some (String.length s)
  | JObj kv => Some (length kv)
  | _ => None
  end.

Definition py_elements (v : json) : list json :=
  match v with
  | JArr l => l
  | JStr s => map (fun c => JStr (String c "")) (list_ascii_of_string s)
  | JObj kv => map (fun p : string * json => JStr (fst p)) kv
  | _ => []
  end.

Section WithPlatform.

Context `{P : Platform}.

(** [validate_api_status] *)
Definition validate_api_status (server : nat -> http_reply) (s : net)
  : (APIStatus * string) * net :=
  (match server (requests s) with
   | Reply code text =>
       if code =? 200 then
         if contains "deprecated" (lower text)
         then (DEPRECATED, "API endpoint is deprecated")
         else (OK, "API responding normally")
       else if code =? 401 then
         (BLOCKED, "Authentication failed (token invalid/expired)")
       else if code =? 403 then (BLOCKED, "Access forbidden")
       else if code =? 429 then (OK, "API responding (rate limited)")
       else if (500 <=? code) && (code <? 600) then
         (UNREACHABLE,
          "Server error " ++ DecimalString.NilZero.string_of_int (Z.to_int code))
       else
         (UNKNOWN,
          "Unexpected status " ++ DecimalString.NilZero.string_of_int (Z.to_int code))
   | ConnectionFailed => (UNREACHABLE, "Network connection failed")
   | TimedOut => (UNREACHABLE, "Request timeout")
   | OtherFailure msg => (UNKNOWN, msg)
   end, requested s).

(** The loop of [_fetch_batch] with [n] attempts to go. *)
Fixpoint fetch_batch_from (server : nat -> http_reply) (limit : Z)
  (attempt n : nat) (s : net) : fres (json * bool) * net :=
  match n with
  | O => (Got (JArr [], false), s)
  | S n' =>
      let s1 := requested s in
      match server (requests s) with
      | Reply code text =>
          if code =? 200 then
            match json_loads text with
            | None => (Fails BodyNotJson, s1)
            | Some (JObj kv) =>
                let conversations := default (JArr []) (assoc "items" kv) in
                match py_len conversations with
                | Some k => (Got (conversations, Z.of_nat k =? limit), s1)
                | None => (Fails NoLen, s1)
                end
            | Some _ => (Fails NoGet, s1)
            end
          else if code =? 401 then
            (Fails (PermissionDenied "Auth token invalid or expired"), s1)
          else if code =? 429 then
            fetch_batch_from server limit (S attempt) n' (sleep (backoff_ms attempt) s1)
          else (Fails (ApiError code), s1)
      | TimedOut =>
          if (attempt <? MAX_RETRIES - 1)%nat
          then fetch_batch_from server limit (S attempt) n' (sleep (backoff_ms attempt) s1)
          else (Fails RequestTimeout, s1)
      | ConnectionFailed => (Fails RequestConnection, s1)
      | OtherFailure msg => (Fails (RequestOther msg), s1)
      end
  end.

(** [_fetch_batch]: the offset travels in the request. *)
Definition _fetch_batch (server : nat -> http_reply) (offset limit : Z) (s : net)
  : fres (json * bool) * net :=
  fetch_batch_from server limit 0 MAX_RETRIES s.

(** The [while True] of [fetch_all_conversations]; [None] when [fuel]
    batches do not reach its end. *)
Fixpoint fetch_loop (server : nat -> http_reply) (limit : option Z) (batch_size : Z)
  (fuel : nat) (all_conversations : list json) (offset : Z) (s : net)
  : option (fres (list json * Z) * net) :=
  match fuel with
  | O => None
  | S fuel' =>
      if (match limit with
          | Some l => negb (l =? 0) && (l <=? Z.of_nat (length all_conversations))
          | None => false
          end)
      then Some (Got (all_conversations, offset), s)
      else
        match _fetch_batch server offset batch_size s with
        | (Fails e, s1) => Some (Fails e, s1)
        | (Got (batch, has_more), s1) =>
            if negb (truthy batch) then Some (Got (all_conversations, offset), s1)
            else
              let all' := (all_conversations ++ py_elements batch)%list in
              let offset' := offset + Z.of_nat (default O (py_len batch)) in
              let s2 := sleep 500 s1 in
              if negb has_more then Some (Got (all', offset'), s2)
              else fetch_loop server limit batch_size fuel' all' offset' s2
        end
  end.

Record fetch_result : Type := mk_fetch_result {
  conversations : list json;
  total : Z;
  offset_reached : Z;
  limit_used : Z
}.

(** [fetch_all_conversations] *)
Definition fetch_all_conversations (server : nat -> http_reply)
  (limit batch_size : option Z) (fuel : nat) (s : net)
  : option (fres fetch_result * net) :=
  let '((status, message), s1) := validate_api_status server s in
  match status with
  | OK =>
      let size :=
        match batch_size with
        | Some b => if b =? 0 then DEFAULT_BATCH_SIZE else b
        | None => DEFAULT_BATCH_SIZE
        end in
      match fetch_loop server limit size fuel [] 0 s1 with
      | None => None
      | Some (Fails e, s2) => Some (Fails e, s2)
      | Some (Got (all_conversations, offset), s2) =>
          Some (Got (mk_fetch_result all_conversations
                       (Z.of_nat (length all_conversations)) offset size), s2)
      end
  | _ => Some (Fails (ApiNotAvailable status message), s1)
  end.

(** The loop of [fetch_conversation_detail]; Python's [None] is [JNull]. *)
Fixpoint detail_from (server : nat -> http_reply) (attempt n : nat) (s : net)
  : fres json * net :=
  match n with
  | O => (Got JNull, s)
  | S n' =>
      let s1 := requested s in
      match server (requests s) with
      | Reply code text =>
          if code =? 200 then
            match json_loads text with
            | Some v => (Got v, s1)
            | None => (Fails BodyNotJson, s1)
            end
          else if code =? 404 then (Got JNull, s1)
          else if code =? 401 then (Fails (PermissionDenied "Auth token invalid"), s1)
          else if code =? 429 then
            detail_from server (S attempt) n' (sleep (backoff_ms attempt) s1)
          else detail_from server (S attempt) n' s1
      | TimedOut =>
          if (attempt <? MAX_RETRIES - 1)%nat
          then detail_from server (S attempt) n' (sleep (backoff_ms attempt) s1)
          else (Got JNull, s1)
      | ConnectionFailed => (Fails RequestConnection, s1)
      | OtherFailure msg => (Fails (RequestOther msg), s1)
      end
  end.

(** [fetch_conversation_detail] *)
Definition fetch_conversation_detail (server : nat -> http_reply) (s : net)
  : fres json * net :=
  detail_from server 0 MAX_RETRIES s.

(** [validate_token] *)
Definition validate_token (server : nat -> http_reply) (s : net) : bool * net :=
  (match server (requests s) with
   | Reply code _ => code =? 200
   | _ => false
   end, requested s).

End WithPlatform.

End Fetcher.

(** ** A reference platform

    Small stand-ins for the libraries, which compute: they serve to run the
    model on concrete archives. *)

Module Ref.

Definition hex_digit (n : Z) : ascii :=
  match String.get (Z.to_nat n) "0123456789abcdef" with
  | Some c => c
  | None => "0"%char
  end.

Fixpoint hex_of (digits : nat) (z : Z) : string :=
  match digits with
  | O => ""
  | S d => hex_of d (z / 16) ++ String (hex_digit (z mod 16)) ""
  end.

(** A 64-digit digest. *)
Definition digest (s : string) : string :=
  hex_of 64
    (fold_left
       (fun acc c =>
          ((acc + Z.of_nat (nat_of_ascii c) + 1)
           * 71563446777022297856526126342750658392501306254664949883333486863006233104021)
          mod 2 ^ 256)
       (list_ascii_of_string s)
       48112959837082048697).

Definition key_padding : string := "AAAAAAAAAAAAAAAAAAAAAAAAAAAAAAAAAAAAAAAAAAA=".

Definition valid_key (k : string) : bool := (String.length k =? 44)%nat.

Definition generate_key (e : string) : string := prefix_n 44 (e ++ key_padding).

Fixpoint strip_prefix (p s : string) : option string :=
  match p, s with
  | EmptyString, _ => Some s
  | String a p', String b s' => if Ascii.eqb a b then strip_prefix p' s' else None
  | _, _ => None
  end.

Fixpoint after_char (c : ascii) (s : string) : option string :=
  match s with
  | EmptyString => None
  | String a s' => if Ascii.eqb a c then Some s' else after_char c s'
  end.

(** A token is [nonce$key$plaintext]. *)
Definition encrypt (key nonce plaintext : string) : string :=
  nonce ++ "$" ++ key ++ "$" ++ plaintext.

Definition decrypt (key token : string) : decrypt_result :=
  match after_char "$" token with
  | Some rest =>
      match strip_prefix (key ++ "$") rest with
      | Some plaintext => Decrypted plaintext
      | None => DecInvalidToken
      end
  | None => DecInvalidToken
  end.

(** Every byte becomes two digits. *)
Fixpoint encode64 (s : string) : string :=
  match s with
  | EmptyString => EmptyString
  | String c s' =>
      let n := Z.of_nat (nat_of_ascii c) in
      String (hex_digit (n / 16)) (String (hex_digit (n mod 16)) (encode64 s'))
  end.

Definition hex_value (c : ascii) : option nat :=
  let n := nat_of_ascii c in
  if (48 <=? n)%nat && (n <=? 57)%nat then Some (n - 48)%nat
  else if (97 <=? n)%nat && (n <=? 102)%nat then Some (n - 87)%nat
  else None.

Fixpoint decode_pairs (fuel : nat) (s : string) : option string :=
  match fuel with
  | O => None
  | S f =>
      match s with
      | EmptyString => Some EmptyString
      | String a (String b s') =>
          match hex_value a, hex_value b, decode_pairs f s' with
          | Some x, Some y, Some r => Some (String (ascii_of_nat (16 * x + y)) r)
          | _, _, _ => None
          end
      | _ => None
      end
  end.

Definition decode64 (s : string) : option string :=
  decode_pairs (S (String.length s)) s.

(** Glob patterns with [*] and [?]. *)
Fixpoint glob (p : list ascii) : list ascii -> bool :=
  match p with
  | [] => fun n => match n with [] => true | _ => false end
  | c :: p' =>
      if Ascii.eqb c "*" then
        fix star (n : list ascii) : bool :=
          glob p' n || match n with [] => false | _ :: n' => star n' end
      else if Ascii.eqb c "?" then
        fun n => match n with [] => false | _ :: n' => glob p' n' end
      else
        fun n => match n with
                 | [] => false
                 | c' :: n' => Ascii.eqb c c' && glob p' n'
                 end
  end.

Definition glob_match (pattern name : string) : bool :=
  glob (list_ascii_of_string pattern) (list_ascii_of_string name).

(** A pattern without wildcard. *)
Definition no_wild (p : list ascii) : bool :=
  forallb (fun c => negb (Ascii.eqb c "*") && negb (Ascii.eqb c "?")) p.

(** Decimal digits. *)
Fixpoint digits (fuel : nat) (n : Z) (acc : string) : string :=
  match fuel with
  | O => acc
  | S f =>
      let acc' := String (ascii_of_nat (48 + Z.to_nat (n mod 10))) acc in
      if n <? 10 then acc' else digits f (n / 10) acc'
  end.

Definition print_Z (z : Z) : string :=
  let n := Z.abs z in
  let d := digits (S (Z.to_nat (Z.log2 n))) n "" in
  if z <? 0 then "-" ++ d else d.

(** Strings are printed between quotes, without escapes: text with a
    quote, a backslash or a control character is not printed. *)
Definition dquote : ascii := ascii_of_nat 34.

Definition plain_char (c : ascii) : bool :=
  negb (Ascii.eqb c dquote) && negb (Ascii.eqb c "\") && (32 <=? nat_of_ascii c)%nat.

Fixpoint plain (s : string) : bool :=
  match s with
  | EmptyString => true
  | String c s' => plain_char c && plain s'
  end.

Fixpoint printable (v : json) : bool :=
  match v with
  | JStr s => plain s
  | JArr l => forallb printable l
  | JObj kv => forallb (fun p => plain (fst p) && printable (snd p)) kv
  | _ => true
  end.

Definition quote (s : string) : string := String dquote (s ++ String dquote "").

Fixpoint print (v : json) : string :=
  match v with
  | JNull => "null"
  | JBool true => "true"
  | JBool false => "false"
  | JNum z => print_Z z
  | JStr s => quote s
  | JArr l =>
      "[" ++
      (fix items (l : list json) : string :=
         match l with
         | [] => ""
         | x :: rest =>
             match rest with
             | [] => print x
             | _ => print x ++ ", " ++ items rest
             end
         end) l ++ "]"
  | JObj kv =>
      "{" ++
      (fix members (kv : list (string * json)) : string :=
         match kv with
         | [] => ""
         | (k, x) :: rest =>
             match rest with
             | [] => quote k ++ ": " ++ print x
             | _ => quote k ++ ": " ++ print x ++ ", " ++ members rest
             end
         end) kv ++ "}"
  end.

Definition dumps (v : json) : option string :=
  if printable v then Some (print v) else None.

Fixpoint skip_ws (s : string) : string :=
  match s with
  | String c s' => if is_space c then skip_ws s' else s
  | EmptyString => s
  end.

(** The text up to the closing quote, and what follows it. *)
Fixpoint read_string (s : string) : option (string * string) :=
  match s with
  | EmptyString => None
  | String c s' =>
      if Ascii.eqb c dquote then Some ("", s')
      else if plain_char c then
        match read_string s' with
        | Some (t, r) => Some (String c t, r)
        | None => None
        end
      else None
  end.

Definition is_digit (c : ascii) : bool :=
  (48 <=? nat_of_ascii c)%nat && (nat_of_ascii c <=? 57)%nat.

Fixpoint read_digits (s : string) (acc : Z) : Z * string :=
  match s with
  | String c s' =>
      if is_digit c then read_digits s' (acc * 10 + Z.of_nat (nat_of_ascii c - 48))
      else (acc, s)
  | EmptyString => (acc, s)
  end.

Fixpoint parse_value (fuel : nat) (s : string) : option (json * string) :=
  match fuel with
  | O => None
  | S f =>
      match skip_ws s with
      | EmptyString => None
      | String c r =>
          if Ascii.eqb c dquote then
            match read_string r with
            | Some (t, r') => Some (JStr t, r')
            | None => None
            end
          else if Ascii.eqb c "[" then
            match skip_ws r with
            | String "]" r' => Some (JArr [], r')
            | _ =>
                match parse_items f r with
                | Some (l, r') => Some (JArr l, r')
                | None => None
                end
            end
          else if Ascii.eqb c "{" then
            match skip_ws r with
            | String "}" r' => Some (JObj [], r')
            | _ =>
                match parse_members f r with
                | Some (kv, r') => Some (JObj kv, r')
                | None => None
                end
            end
          else if Ascii.eqb c "-" then
            match r with
            | String d _ =>
                if is_digit d then
                  let '(n, r') := read_digits r 0 in Some (JNum (- n), r')
                else None
            | EmptyString => None
            end
          else if is_digit c then
            let '(n, r') := read_digits (String c r) 0 in Some (JNum n, r')
          else
            match strip_prefix "null" (String c r) with
            | Some r' => Some (JNull, r')
            | None =>
                match strip_prefix "true" (String c r) with
                | Some r' => Some (JBool true, r')
                | None =>
                    match strip_prefix "false" (String c r) with
                    | Some r' => Some (JBool false, r')
                    | None => None
                    end
                end
            end
      end
  end
with parse_items (fuel : nat) (s : string) : option (list json * string) :=
  match fuel with
  | O => None
  | S f =>
      match parse_value f s with
      | Some (v, r) =>
          match skip_ws r with
          | String "," r' =>
              match parse_items f r' with
              | Some (l, r'') => Some (v :: l, r'')
              | None => None
              end
          | String "]" r' => Some ([v], r')
          | _ => None
          end
      | None => None
      end
  end
with parse_members (fuel : nat) (s : string) : option (list (string * json) * string) :=
  match fuel with
  | O => None
  | S f =>
      match skip_ws s with
      | String c r =>
          if Ascii.eqb c dquote then
            match read_string r with
            | Some (k, r1) =>
                match skip_ws r1 with
                | String ":" r2 =>
                    match parse_value f r2 with
                    | Some (v, r3) =>
                        match skip_ws r3 with
                        | String "," r4 =>
                            match parse_members f r4 with
                            | Some (kv, r5) => Some ((k, v) :: kv, r5)
                            | None => None
                            end
                        | String "}" r4 => Some ([(k, v)], r4)
                        | _ => None
                        end
                    | None => None
                    end
                | _ => None
                end
            | None => None
            end
          else None
      | _ => None
      end
  end.

Definition loads (s : string) : option json :=
  match parse_value (S (String.length s)) s with
  | Some (v, r) =>
      match skip_ws r with
      | EmptyString => Some v
      | _ => None
      end
  | None => None
  end.

End Ref.

#[global] Instance ref_platform : Platform := {|
  sha256_hex := Ref.digest;
  fernet_valid := Ref.valid_key;
  fernet_generate_key := Ref.generate_key;
  fernet_encrypt := Ref.encrypt;
  fernet_decrypt := Ref.decrypt;
  b64encode := Ref.encode64;
  b64decode := Ref.decode64;
  json_dumps := Ref.dumps;
  json_loads := Ref.loads;
  glob_match := Ref.glob_match
|}.


(** ** Concrete archives *)

Module Sample.

Definition key : string := "kkkkkkkkkkkkkkkkkkkkkkkkkkkkkkkkkkkkkkkkkkk=".
Definition other_key : string := "ooooooooooooooooooooooooooooooooooooooooooo=".

Definition fingerprint_of (k : string) : string := prefix_n 16 (Ref.digest k).

(** A store whose key matches the manifest, and a poisoned one. *)
Definition store : LocalEncryptedStore := mk_store key (fingerprint_of key) false.
Definition poisoned : LocalEncryptedStore := mk_store key (fingerprint_of key) true.

Definition empty_world : world := mk_world (Some key) None None [] ∅.

Definition env_on (day : string) : store_env :=
  mk_store_env day (day ++ "T10:00:00") "iv" 0 0 NoFault.

Definition record : json := JObj [("title", JStr "t"); ("mapping", JObj [])].
Definition old_record : json := JObj [("title", JStr "old"); ("mapping", JObj [])].
Definition metadata : json := JObj [("id", JStr "abc123"); ("title", JStr "t")].

(** The archive after [record] is stored under ["abc123"]. *)
Definition stored_world : world :=
  snd (store_conversation store (env_on "2024-05-02") record metadata empty_world).

(** The archive in which ["abc123"] was stored the day before as well. *)
Definition old_world : world :=
  snd (store_conversation store (env_on "2024-05-01") old_record metadata empty_world).

Definition twice_world : world :=
  snd (store_conversation store
         (mk_store_env "2024-05-02" "2024-05-02T10:00:00" "iv" 1 0 NoFault)
         record metadata old_world).

Definition metadata_fields : list (string * json) :=
  [("id", JStr "abc123"); ("title", JStr "t")].

(** A wrapper of [record] with a checksum field of one's choice, and the
    archive that holds just this wrapper. *)
Definition plaintext : string := Ref.print record.
Definition token64 : string := Ref.encode64 (Ref.encrypt key "iv" plaintext).

Definition wrapper_fields (checksum : list (string * json)) : list (string * json) :=
  [("metadata", metadata); ("encrypted_content", JStr token64);
   ("encryption_version", JStr "fernet-v1")] ++ checksum ++
  [("archived_at", JStr "2024-05-02T10:00:00"); ("version", JStr "1.1")].

Definition wrapper_with (checksum : list (string * json)) : json :=
  JObj (wrapper_fields checksum).

Definition name_abc123 : string := wrapper_name (P:=ref_platform) "abc123".

Definition world_of_text (text : string) : world :=
  mk_world (Some key) None None
           [("2024-05-02", DateDir [(name_abc123, File text)])] ∅.

Definition world_with (checksum : list (string * json)) : world :=
  world_of_text (Ref.print (wrapper_with checksum)).

(** An archive whose manifest was written under another key. *)
Definition manifest_doc : json :=
  JObj [("version", JStr "1.1"); ("created_at", JStr "2024-04-30T08:00:00");
        ("key_fingerprint", JStr (fingerprint_of other_key))].

Definition manifest_text : string := Ref.print manifest_doc.

Definition mismatch_world : world := mk_world (Some key) None (Some manifest_text) [] ∅.

Definition init_env0 : init_env :=
  mk_init_env (mk_key_env true false false false NoFault "seed")
              "2024-05-02T09:00:00" false false.

(** A lock file after a call of [acquire] that found the lock free, and
    one after a call that found it held by another process until the
    timeout. *)
Definition quiet : attempt_env := mk_attempt_env false false false false 100.
Definition late : attempt_env := mk_attempt_env false false false false 5100.

Definition contended_lock : LockFile * os_lock :=
  (lock_init Fcntl, mk_os_lock [] HeldElsewhere 0).

Definition held_lock : LockFile * os_lock :=
  (mk_lock_file Fcntl (Some 0%nat) true, mk_os_lock [0%nat] (HeldBy 0) 1).

Definition refused_lock : LockFile * os_lock :=
  (mk_lock_file Fcntl None false, mk_os_lock [] HeldElsewhere 2).

(** The checksum of [record] with its first digit changed. *)
Definition tampered_checksum : string :=
  "d154e77798a41c8471f0b30366a78e740fce172a679e9c4293160807d09ce480".

Definition env_second_day : store_env :=
  mk_store_env "2024-05-02" "2024-05-02T10:00:00" "iv" 1 0 NoFault.

(** Two runs of the export over a listing of two conversations: the first
    is interrupted after one entry, whose detail it fetched and stored; the
    second resumes it and gets no detail from the remote side. *)
Definition entry_a : conv_metadata :=
  mk_conv_metadata (Some "abc123") [("title", JStr "t")].
Definition entry_b : conv_metadata :=
  mk_conv_metadata (Some "def456") [("title", JStr "u")].

Definition first_run : export_env :=
  mk_export_env "job00001" "2024-05-02T09:00:00" "2024-05-02T09:30:00"
    (Some "session-token-0123456789") init_env0 None true
    (Val [entry_a; entry_b])
    (fun _ => mk_item_env (Val record) (env_on "2024-05-02"))
    (Some 1%nat).

Definition resumed_run : export_env :=
  mk_export_env "job00002" "2024-05-02T11:00:00" "2024-05-02T11:30:00"
    (Some "session-token-0123456789") init_env0 None true
    (Val [entry_a; entry_b])
    (fun _ => mk_item_env (Val JNull) (env_on "2024-05-02"))
    None.



(** A call of [run_export] whose first attempt at the lock ends within
    the timeout and whose second one ends after it. *)
Definition locked_run : run_env :=
  mk_run_env Fcntl "~/.chats_archive/.lock" [quiet; late] (mk_release_env false)
    first_run.

(** A remote side that answers the status check, then a full page of two
    entries, is rate limited once, and ends with a page of one entry. *)
Definition page (l : list json) : string := Ref.print (JObj [("items", JArr l)]).

Definition paged_server (n : nat) : Fetcher.http_reply :=
  match n with
  | 0%nat => Fetcher.Reply 200 (page [])
  | 1%nat =>
      Fetcher.Reply 200
        (page [JObj [("id", JStr "abc123")]; JObj [("id", JStr "def456")]])
  | 2%nat => Fetcher.Reply 429 ""
  | 3%nat => Fetcher.Reply 200 (page [JObj [("id", JStr "ghi789")]])
  | _ => Fetcher.Reply 500 ""
  end.

(** A credential manager that holds text which is no key. *)
Definition bad_key_world : world := mk_world (Some "not-a-key") None None [] ∅.
Definition key_env0 : key_env := mk_key_env true false false false NoFault "seed".

End Sample.

(** ** Notions used by the properties *)

(** The answer of a poisoned store. *)
Definition wrong_key_result (cid : string) : IntegrityResult :=
  mk_result cid UNREADABLE None None None None (Some "WRONG_KEY_MANIFEST_MISMATCH").

(** What ties a lock file to the lock of its path between two calls. *)
Definition lock_inv (s : LockFile * os_lock) : Prop :=
  (lock_file (fst s) = None -> open_files (snd s) = []) /\
  (forall h, lock_file (fst s) = Some h ->
             open_files (snd s) = [h] /\ (h < next_handle (snd s))%nat) /\
  (forall h, holder (snd s) = HeldBy h -> lock_file (fst s) = Some h).

(** The number of places where two texts of the same length differ. *)
Fixpoint differing (a b : string) : option nat :=
  match a, b with
  | EmptyString, EmptyString => Some O
  | String x a', String y b' =>
      match differing a' b' with
      | Some n => Some (if Ascii.eqb x y then n else S n)
      | None => None
      end
  | _, _ => None
  end.

Definition one_byte_changed (a b : string) : Prop := differing a b = Some 1%nat.

(** The wrapper document with another checksum. *)
Definition set_checksum (checksum : string) (doc : json) : json :=
  match doc with
  | JObj kv => JObj (assoc_set "checksum" (JStr checksum) kv)
  | _ => doc
  end.

Section Notions.
Context `{P : Platform}.

(** Somebody rewrites a wrapper file with another checksum. *)
Definition tamper_checksum (fp : path) (checksum : string) (w : world) : option world :=
  match _load_wrapper (w_convs w) fp with
  | Some doc =>
      match json_dumps (set_checksum checksum doc) with
      | Some text => Some (set_convs (write_wrapper 0 fp text (w_convs w)) w)
      | None => None
      end
  | None => None
  end.

(** The identifier [store_conversation] files the wrapper under. *)
Definition filed_under (metadata_dict : json) : res string :=
  v ← store_conv_id metadata_dict; py_encode v.

(** The wrapper document [store_conversation] writes for a plaintext. *)
Definition wrapper_doc (st : LocalEncryptedStore) (env : store_env)
  (metadata_dict : json) (plaintext : string) : json :=
  stored_obj metadata_dict
    (b64encode (fernet_encrypt (encryption_key st) (nonce env) plaintext))
    (sha256_hex plaintext) (now_iso env).

(** The stored keys that parse: what [get_or_create_key] accepts from the
    credential manager and from the fallback file. *)
Definition usable_keyring (env : key_env) (w : world) : option string :=
  if has_keyring env then
    match w_keyring w with
    | Some k => if negb (String.eqb k "") && fernet_valid k then Some k else None
    | None => None
    end
  else None.

Definition usable_keyfile (w : world) : option string :=
  match w_keyfile w with
  | Some text => if fernet_valid (strip text) then Some (strip text) else None
  | None => None
  end.





(** The libraries answer as they should on the values at hand: a value
    written by [json.dumps] is read back by [json.loads]; a token decrypts
    to what was encrypted and survives base64; the glob pattern made of a
    token name matches that name only. *)
Definition round_trips (v : json) : Prop :=
  forall s, json_dumps v = Some s -> json_loads s = Some v.

Definition cipher_round_trips (key nonce plaintext : string) : Prop :=
  let token := fernet_encrypt key nonce plaintext in
  fernet_decrypt key token = Decrypted plaintext /\
  b64decode (b64encode token) = Some token /\
  b64encode token <> "".

Definition token_name_exact (cid : string) : Prop :=
  forall n, glob_match (wrapper_name cid) n = true <-> n = wrapper_name cid.

(** Every wrapper file of that name lies in the directory of that day. *)
Definition only_in (day name : string) (c : list (string * node)) : Prop :=
  forall d files e, In (d, DateDir files) c -> In (name, e) files -> d = day.

(** The entry is one the loop skips when [force_refetch] is off: it has
    an identifier, and the archive holds a wrapper of it that verifies. *)
Definition skips (st : LocalEncryptedStore) (c : list (string * node))
  (m : conv_metadata) : bool :=
  match meta_id m with
  | Some conv_id =>
      negb (String.eqb conv_id "unknown") &&
      match has_valid_conversation st (mk_world None None None c ∅) conv_id with
      | Val true => true
      | _ => false
      end
  | None => false
  end.

End Notions.

Definition state_of (m : res IntegrityResult) : option IntegrityState :=
  match m with Val r => Some (state r) | Raise _ => None end.

Definition error_code_of (m : res IntegrityResult) : option (option string) :=
  match m with Val r => Some (error_code r) | Raise _ => None end.

(** The job an invocation of [_run_export_locked] works on. *)
Definition run_job (env : export_env) (resume_job_id : option string) : string :=
  match resume_job_id with
  | Some j => if String.eqb j "" then fresh_job_id env else j
  | None => fresh_job_id env
  end.

(** The row of that job when the invocation starts: the row of the resumed
    job, or the row [create_job] inserts.  There is none when the job to
    resume is not in the table, or the new identifier is taken. *)
Definition starting_row (env : export_env) (resume_job_id : option string)
  (w : world) : option job :=
  let fresh :=
    match w_jobs w !! fresh_job_id env with
    | Some _ => None
    | None => Some (mk_job (now_started env) None 0 0 0 [] pending)
    end in
  match resume_job_id with
  | Some j => if String.eqb j "" then fresh else w_jobs w !! j
  | None => fresh
  end.

(** A lock file that holds nothing, on a lock that this process does not hold. *)
Definition idle (s : LockFile * os_lock) : Prop :=
  lock_file (fst s) = None /\ _lock_acquired (fst s) = false /\
  open_files (snd s) = [] /\
  (holder (snd s) = Free \/ holder (snd s) = HeldElsewhere).

(** A lock file that has acquired the lock, which was held by [l] before. *)
Definition holding (l : lock_holder) (s : LockFile * os_lock) : Prop :=
  _lock_acquired (fst s) = true /\
  exists h, lock_file (fst s) = Some h /\ open_files (snd s) = [h] /\
    match lock_backend (fst s) with
    | Marker => holder (snd s) = l
    | _ => l = Free /\ holder (snd s) = HeldBy h
    end.



(** * Properties *)

(** ** Association lists and the directory tree *)

Lemma assoc_app_ne {A : Type} (k k' : string) (v : A) l1 l2 :
  k <> k' -> assoc k (l1 ++ (k', v) :: l2) = assoc k (l1 ++ l2).
Proof.
  intros Hne. induction l1 as [|[k0 v0] t IH]; simpl.
  - destruct (String.eqb_spec k k'); [contradiction | reflexivity].
  - rewrite IH. reflexivity.
Qed.

Lemma assoc_app_eq {A : Type} (k : string) (v : A) l1 l2 :
  assoc k (l1 ++ l2) = None -> assoc k (l1 ++ (k, v) :: l2) = Some v.
Proof.
  induction l1 as [|[k0 v0] t IH]; simpl.
  - rewrite String.eqb_refl. reflexivity.
  - destruct (String.eqb k k0); [discriminate | auto].
Qed.

Lemma assoc_insert_at_ne {A : Type} (k k' : string) (v : A) n l :
  k <> k' -> assoc k (insert_at n (k', v) l) = assoc k l.
Proof.
  intros Hne. unfold insert_at.
  rewrite assoc_app_ne by assumption. rewrite take_drop. reflexivity.
Qed.

Lemma assoc_insert_at_eq {A : Type} (k : string) (v : A) n l :
  assoc k l = None -> assoc k (insert_at n (k, v) l) = Some v.
Proof.
  intros Hnone. unfold insert_at.
  apply assoc_app_eq. rewrite take_drop. assumption.
Qed.

Lemma assoc_set_eq {A : Type} (k : string) (v : A) l :
  assoc k (assoc_set k v l) = Some v.
Proof.
  induction l as [|[k0 v0] l IH]; simpl.
  - rewrite String.eqb_refl. reflexivity.
  - destruct (String.eqb k k0) eqn:E; simpl.
    + rewrite String.eqb_refl. reflexivity.
    + rewrite E. exact IH.
Qed.

Lemma assoc_set_ne {A : Type} (k k' : string) (v : A) l :
  k <> k' -> assoc k (assoc_set k' v l) = assoc k l.
Proof.
  intros Hne. induction l as [|[k0 v0] l IH]; simpl.
  - destruct (String.eqb_spec k k'); [contradiction | reflexivity].
  - destruct (String.eqb_spec k' k0) as [->|Hk]; simpl.
    + destruct (String.eqb_spec k k0); [contradiction | reflexivity].
    + destruct (String.eqb k k0); [reflexivity | exact IH].
Qed.

Lemma assoc_In {A : Type} (k : string) (v : A) l :
  assoc k l = Some v -> In (k, v) l.
Proof.
  induction l as [|[k0 v0] l IH]; simpl; [discriminate|].
  destruct (String.eqb_spec k k0) as [->|Hk].
  - intros [= ->]. left. reflexivity.
  - intros H. right. auto.
Qed.

Lemma assoc_put_file_eq pos name content files :
  assoc name (put_file pos name content files) = Some (File content).
Proof.
  unfold put_file. destruct (assoc name files) eqn:E.
  - apply assoc_set_eq.
  - apply assoc_insert_at_eq. exact E.
Qed.

Lemma assoc_put_file_ne pos name name' content files :
  name' <> name ->
  assoc name' (put_file pos name content files) = assoc name' files.
Proof.
  intros Hne. unfold put_file. destruct (assoc name files).
  - apply assoc_set_ne. exact Hne.
  - apply assoc_insert_at_ne. exact Hne.
Qed.

Lemma lookup_write_eq pos (fp : path) content c files :
  assoc (fst fp) c = Some (DateDir files) ->
  lookup_file (write_wrapper pos fp content c) fp = Some (File content).
Proof.
  intros H. unfold lookup_file, write_wrapper. rewrite H.
  rewrite assoc_set_eq. apply assoc_put_file_eq.
Qed.

Lemma lookup_write_ne pos (fp p : path) content c :
  p <> fp ->
  lookup_file (write_wrapper pos fp content c) p = lookup_file c p.
Proof.
  intros Hne. unfold lookup_file, write_wrapper.
  destruct (assoc (fst fp) c) as [[files|]|] eqn:E; try reflexivity.
  destruct (String.eqb_spec (fst p) (fst fp)) as [Hd|Hd].
  - rewrite Hd, assoc_set_eq, E.
    apply assoc_put_file_ne. intros Hn. apply Hne.
    destruct p, fp; simpl in *; congruence.
  - rewrite assoc_set_ne by exact Hd. reflexivity.
Qed.

Lemma mkdir_date_spec env c c1 :
  mkdir_date env c = Val c1 ->
  fault env <> FailMkdir /\
  (exists files, assoc (today env) c1 = Some (DateDir files)) /\
  (forall p, lookup_file c1 p = lookup_file c p).
Proof.
  unfold mkdir_date. intros H.
  assert (Hf : fault env <> FailMkdir) by (destruct (fault env); congruence).
  split; [exact Hf|].
  assert (H' : match assoc (today env) c with
               | Some (DateDir _) => Val c
               | Some Plain => Raise (mk_exc OSError "FileExistsError")
               | None => Val (insert_at (dir_pos env) (today env, DateDir []) c)
               end = Val c1) by (destruct (fault env); congruence).
  clear H. destruct (assoc (today env) c) as [[files|]|] eqn:E;
    inversion H'; subst; clear H'.
  - split; [eauto|]. reflexivity.
  - split.
    + exists []. apply assoc_insert_at_eq. exact E.
    + intros p. unfold lookup_file.
      destruct (String.eqb_spec (fst p) (today env)) as [Hd|Hd].
      * rewrite Hd, E, assoc_insert_at_eq by exact E. reflexivity.
      * rewrite assoc_insert_at_ne by exact Hd. reflexivity.
Qed.

(** ** The lock file *)

Lemma filter_ne_self (h : nat) : filter (fun h' => h' ≠ h) [h] = [].
Proof. rewrite filter_cons. destruct (decide (h ≠ h)); [contradiction|reflexivity]. Qed.

Lemma filter_ne_keep (h old : nat) :
  h ≠ old -> filter (fun h' => h' ≠ old) [h; old] = [h].
Proof.
  intros Hne. rewrite filter_cons. destruct (decide (h ≠ old)); [|contradiction].
  rewrite filter_ne_self. reflexivity.
Qed.

Lemma drop_lock_not_held (h x : nat) (l : lock_holder) :
  (forall y, l = HeldBy y -> y = h) -> drop_lock h l <> HeldBy x.
Proof.
  intros Hl. destruct l as [|y|]; simpl; try discriminate.
  rewrite (Hl y eq_refl), Nat.eqb_refl. discriminate.
Qed.

Lemma close_file_released (s : LockFile * os_lock) :
  lock_inv s ->
  lock_inv (_close_file s) /\
  lock_file (fst (_close_file s)) = None /\
  open_files (snd (_close_file s)) = [] /\
  (forall h, holder (snd (_close_file s)) <> HeldBy h) /\
  _lock_acquired (fst (_close_file s)) = _lock_acquired (fst s).
Proof.
  intros (Hnone & Hsome & Hheld). unfold _close_file.
  destruct (lock_file (fst s)) as [h|] eqn:E.
  - destruct (Hsome h eq_refl) as [Hopen Hlt].
    assert (Hfiles : open_files (os_close h (snd s)) = []).
    { unfold os_close. simpl. rewrite Hopen. apply filter_ne_self. }
    assert (Hfree : forall x, holder (os_close h (snd s)) <> HeldBy x).
    { intros x. unfold os_close. simpl. apply drop_lock_not_held.
      intros y Hy. specialize (Hheld y Hy). congruence. }
    repeat split; simpl; auto; try discriminate.
    intros x Hx. exfalso. exact (Hfree x Hx).
  - assert (Hfree : forall x, holder (snd s) <> HeldBy x).
    { intros x Hx. specialize (Hheld x Hx). congruence. }
    repeat split; auto; try (intros; congruence).
Qed.

Lemma acquire_try_inv (a : attempt_env) (s : LockFile * os_lock) :
  lock_inv s -> lock_inv (snd (acquire_try a s)).
Proof.
  intros Hinv. destruct s as [lf o]. unfold acquire_try.
  destruct (open_fails a); [exact Hinv|].
  destruct Hinv as (Hnone & Hsome & Hheld). simpl in Hnone, Hsome, Hheld.
  set (h := next_handle o).
  set (o1 := mk_os_lock (h :: open_files o) (holder o) (S h)).
  set (o2 := match lock_file lf with Some old => os_close old o1 | None => o1 end).
  assert (Hopen2 : open_files o2 = [h]).
  { unfold o2. destruct (lock_file lf) as [old|] eqn:E.
    - destruct (Hsome old eq_refl) as [Hopen Hlt].
      unfold os_close, o1. simpl. rewrite Hopen.
      apply filter_ne_keep. unfold h. lia.
    - unfold o1. simpl. rewrite (Hnone eq_refl). reflexivity. }
  assert (Hnext2 : next_handle o2 = S h).
  { unfold o2. destruct (lock_file lf); reflexivity. }
  assert (Hfree2 : forall x, holder o2 <> HeldBy x).
  { intros x. unfold o2. destruct (lock_file lf) as [old|] eqn:E.
    - unfold os_close, o1. simpl. apply drop_lock_not_held.
      intros y Hy. specialize (Hheld y Hy). congruence.
    - unfold o1. simpl. intros Hx. specialize (Hheld x Hx). congruence. }
  assert (Hbase : forall bk acq, lock_inv (mk_lock_file bk (Some h) acq, o2)).
  { intros bk acq. repeat split; simpl.
    - discriminate.
    - inversion H; subst. exact Hopen2.
    - inversion H; subst. rewrite Hnext2. lia.
    - intros x Hx. exfalso. exact (Hfree2 x Hx). }
  assert (Hlocked : forall bk acq,
            lock_inv (mk_lock_file bk (Some h) acq,
                      mk_os_lock (open_files o2) (HeldBy h) (next_handle o2))).
  { intros bk acq. repeat split; simpl.
    - discriminate.
    - inversion H; subst. exact Hopen2.
    - inversion H; subst. rewrite Hnext2. lia.
    - intros x Hx. inversion Hx. reflexivity. }
  clearbody o2. clear Hopen2 Hnext2 Hfree2.
  destruct (other_exception a); [apply Hbase|].
  destruct (lock_backend lf), (lock_call_fails a), (holder o2), (chmod_fails a);
    simpl; first [apply Hbase | apply Hlocked].
Qed.

Lemma acquire_inv (timeout_ms : Z) (attempts : list attempt_env)
  (s : LockFile * os_lock) (b : bool) (s' : LockFile * os_lock) :
  lock_inv s ->
  (_lock_acquired (fst s) = false -> lock_file (fst s) = None) ->
  acquire timeout_ms attempts s = Some (b, s') ->
  lock_inv s' /\ (_lock_acquired (fst s') = false -> lock_file (fst s') = None).
Proof.
  revert s. induction attempts as [|a rest IH]; intros s Hinv Hflag Hacq;
    simpl in Hacq; [discriminate|].
  pose proof (acquire_try_inv a s Hinv) as Htry.
  destruct (acquire_try a s) as [[| |] s1] eqn:E; simpl in Htry.
  - inversion Hacq; subst. split; [exact Htry|].
    intros Hf. exfalso. revert E Hf. destruct s as [lf o]. unfold acquire_try.
    repeat match goal with
           | |- context [if ?c then _ else _] => destruct c
           | |- context [match ?c with _ => _ end] => destruct c
           end; intros E; inversion E; subst; simpl; discriminate.
  - destruct (close_file_released s1 Htry) as (Hi & Hn & _ & _ & _).
    destruct ((timeout_ms <=? 0) || (timeout_ms <=? elapsed_ms a)).
    + inversion Hacq; subst. split; [exact Hi|]. intros _. exact Hn.
    + eapply IH; [exact Hi| |exact Hacq]. intros _. exact Hn.
  - destruct (close_file_released s1 Htry) as (Hi & Hn & _ & _ & _).
    inversion Hacq; subst. split; [exact Hi|]. intros _. exact Hn.
Qed.

Lemma unlock_try_inv (r : release_env) (s : LockFile * os_lock) :
  lock_inv s ->
  lock_inv (fst s, match unlock_try r s with Val o => o | Raise _ => snd s end).
Proof.
  intros Hinv. destruct s as [lf o]. unfold unlock_try. simpl.
  destruct (lock_backend lf); try exact Hinv;
    destruct (lock_file lf) as [h|] eqn:E; try exact Hinv;
    destruct (unlock_fails r); try exact Hinv;
    destruct Hinv as (Hnone & Hsome & Hheld); simpl in *;
    (split; [|split]); simpl.
  all: try (intros Hn; congruence).
  all: try (intros x Hx; exact (Hsome x Hx)).
  all: intros x Hx; exfalso; eapply (drop_lock_not_held h x); [|exact Hx];
    intros y Hy; specialize (Hheld y Hy); congruence.
Qed.

Lemma release_spec (r : release_env) (s : LockFile * os_lock) :
  lock_inv s ->
  (_lock_acquired (fst s) = false -> lock_file (fst s) = None) ->
  fst (release r s) = Val tt /\ released (snd (release r s)) /\
  lock_inv (snd (release r s)).
Proof.
  intros Hinv Hflag. unfold release.
  destruct (_lock_acquired (fst s)) eqn:Eacq; cbn [negb].
  - pose proof (unlock_try_inv r s Hinv) as Hinv1.
    set (o1 := match unlock_try r s with Val o => o | Raise _ => snd s end) in *.
    destruct (close_file_released (fst s, o1) Hinv1) as (Hi & Hn & Ho & Hh & _).
    destruct (_close_file (fst s, o1)) as [lf2 o2] eqn:Ec.
    simpl in Hi, Hn, Ho, Hh. cbn [fst snd].
    split; [reflexivity|]. split.
    + unfold released. simpl. auto.
    + destruct Hi as (H1 & H2 & H3). simpl in H1, H2, H3.
      split; [|split]; simpl; auto.
  - specialize (Hflag eq_refl). destruct Hinv as (Hnone & Hsome & Hheld).
    cbn [fst snd]. split; [reflexivity|]. split.
    + unfold released. repeat split; auto.
      intros h Hx. specialize (Hheld h Hx). congruence.
    + split; [|split]; auto.
Qed.

Lemma lock_reachable_inv (b : backend) (s : LockFile * os_lock) :
  lock_reachable b s ->
  lock_inv s /\ (_lock_acquired (fst s) = false -> lock_file (fst s) = None).
Proof.
  induction 1 as [l Hl|s s' Hreach [Hinv Hflag] Hstep].
  - split; [|reflexivity].
    split; [|split]; simpl; try discriminate; try reflexivity.
    intros h Hh. destruct Hl as [-> | ->]; discriminate.
  - destruct Hstep as [t atts s b0 s' Hacq|r s|lf o Hfree|lf o Hheld].
    + eapply acquire_inv; eassumption.
    + destruct (release_spec r s Hinv Hflag) as (_ & (Ha & Hn & _) & Hi).
      split; [exact Hi|]. intros _. exact Hn.
    + split; [|exact Hflag].
      destruct Hinv as (H1 & H2 & H3). split; [|split]; simpl in *; auto.
      discriminate.
    + split; [|exact Hflag].
      destruct Hinv as (H1 & H2 & H3). split; [|split]; simpl in *; auto.
      discriminate.
Qed.

(** ** The reference platform *)

Lemma ref_glob_literal (p : list ascii) :
  Ref.no_wild p = true -> forall n, Ref.glob p n = true <-> n = p.
Proof.
  induction p as [|c p IH]; intros Hp n.
  - simpl. destruct n; split; intros H; try reflexivity; discriminate.
  - simpl in Hp. apply andb_prop in Hp as [Hc Hp].
    apply andb_prop in Hc as [Hstar Hq].
    apply negb_true_iff in Hstar, Hq. simpl. rewrite Hstar, Hq.
    destruct n as [|c' n]; [split; discriminate|].
    rewrite andb_true_iff, (IH Hp n). split.
    + intros [Hcc ->]. apply Ascii.eqb_eq in Hcc. subst. reflexivity.
    + intros [= -> ->]. split; [apply Ascii.eqb_refl|reflexivity].
Qed.

Lemma ref_token_name_exact (cid : string) :
  Ref.no_wild (list_ascii_of_string (wrapper_name (P:=ref_platform) cid)) = true ->
  token_name_exact (P:=ref_platform) cid.
Proof.
  intros Hp n. unfold glob_match; simpl. unfold Ref.glob_match.
  rewrite (ref_glob_literal _ Hp). split.
  - intros H. rewrite <- (string_of_list_ascii_of_string n), H.
    apply string_of_list_ascii_of_string.
  - intros ->. reflexivity.
Qed.

Lemma differing_refl (a : string) : differing a a = Some O.
Proof.
  induction a as [|x a IH]; simpl; [reflexivity|].
  rewrite IH, Ascii.eqb_refl. reflexivity.
Qed.

Lemma one_byte_changed_neq (a b : string) :
  one_byte_changed a b -> b <> "" /\ b <> a.
Proof.
  unfold one_byte_changed. intros H. split.
  - intros ->. destruct a; simpl in H; discriminate.
  - intros ->. rewrite differing_refl in H. discriminate.
Qed.

Section Properties.
Context `{P : Platform}.

(** ** The poisoned store *)

Lemma verify_poisoned (st : LocalEncryptedStore) (w : world) (cid : string) :
  _key_mismatch st = true ->
  verify_conversation st w cid = Val (wrong_key_result cid).
Proof.
  intros H. unfold verify_conversation, _ensure_key_matches_manifest.
  rewrite H. reflexivity.
Qed.

Lemma retrieve_poisoned (st : LocalEncryptedStore) (w : world) (cid : string) :
  _key_mismatch st = true ->
  retrieve_conversation st w cid = Val JNull.
Proof.
  intros H. unfold retrieve_conversation, _ensure_key_matches_manifest.
  rewrite H. reflexivity.
Qed.

Lemma store_key_locally_manifest env key w :
  w_manifest (snd (_store_key_locally env key w)) = w_manifest w.
Proof. unfold _store_key_locally. destruct (keyfile_fault env); reflexivity. Qed.

Lemma get_or_create_key_manifest env w :
  w_manifest (snd (get_or_create_key env w)) = w_manifest w.
Proof.
  unfold get_or_create_key.
  pose proof (store_key_locally_manifest env (fernet_generate_key (entropy env)) w) as Hl.
  destruct (_store_key_locally env (fernet_generate_key (entropy env)) w) as [[u|e] w'];
    simpl in Hl;
    repeat match goal with
           | |- context [if ?b then _ else _] => destruct b
           | |- context [match ?o with Some _ => _ | None => _ end] => destruct o
           end; simpl; auto.
Qed.

(** C2.  When the manifest that exists names another key fingerprint than
    the key in use, the store is poisoned from its construction on: for
    every conversation id and every later state of the disk, [verify]
    answers UNREADABLE with WRONG_KEY_MANIFEST_MISMATCH, naming no file
    (the answer does not depend on the archive, which is not read), and
    [retrieve] answers [None].  The flag is a field of the store that no
    operation changes. *)
Theorem poisoned_fails_closed (env : init_env) (w w1 : world)
  (st : LocalEncryptedStore) (text : string) (data fp : json) :
  store_init env w = (Val st, w1) ->
  w_manifest w = Some text ->
  manifest_read_fails env = false ->
  json_loads text = Some data ->
  py_get data "key_fingerprint" = Val (Some fp) ->
  truthy fp = true ->
  eq_str fp (prefix_n 16 (sha256_hex (encryption_key st))) = false ->
  _key_mismatch st = true /\
  forall (w' : world) (cid : string),
    verify_conversation st w' cid = Val (wrong_key_result cid) /\
    retrieve_conversation st w' cid = Val JNull.
Proof.
  intros Hinit Hman Hread Hloads Hget Htruthy Hneq.
  assert (Hflag : _key_mismatch st = true).
  { unfold store_init in Hinit.
    pose proof (get_or_create_key_manifest (init_key_env env) w) as Hm.
    destruct (get_or_create_key (init_key_env env) w) as [[key|e] w0];
      [|discriminate].
    simpl in Hm. destruct (fernet_valid key); [|discriminate].
    unfold _load_or_init_manifest in Hinit.
    rewrite Hm, Hman, Hread, Hloads, Hget in Hinit.
    inversion Hinit; subst; clear Hinit. simpl in *.
    rewrite Htruthy, Hneq. reflexivity. }
  split; [exact Hflag|].
  intros w' cid. split.
  - apply verify_poisoned; assumption.
  - apply retrieve_poisoned; assumption.
Qed.


(** ** Verification of one wrapper *)

Lemma decrypt_bytes_ok (st : LocalEncryptedStore) kv b token plaintext :
  assoc "encrypted_content" kv = Some (JStr b) ->
  b <> "" ->
  b64decode b = Some token ->
  fernet_decrypt (encryption_key st) token = Decrypted plaintext ->
  _decrypt_bytes st (JObj kv) = Val (inl plaintext).
Proof.
  intros Hb Hne H64 Hdec. unfold _decrypt_bytes. cbn. rewrite Hb. cbn.
  destruct (String.eqb_spec b ""); [contradiction|]. cbn.
  rewrite H64, Hdec. reflexivity.
Qed.

Lemma decrypt_bytes_nonempty (st : LocalEncryptedStore) kv plaintext :
  _decrypt_bytes st (JObj kv) = Val (inl plaintext) -> kv <> [].
Proof. intros H ->. cbn in H. discriminate. Qed.

Lemma falsy_checksum_cases (o : option json) :
  o = None \/ o = Some JNull \/ o = Some (JStr "") -> truthy_opt o = false.
Proof. intros [->|[->| ->]]; reflexivity. Qed.

(** C9.  A wrapper that decrypts under the key of the store and whose
    checksum field is absent, null or the empty string verifies as VALID
    with no error code: the comparison of checksums is skipped. *)
Theorem missing_checksum_is_valid (st : LocalEncryptedStore) (w : world)
  (cid : string) (fp : path) (kv : list (string * json))
  (b token plaintext : string) :
  _key_mismatch st = false ->
  find_wrapper_path_for_conversation (w_convs w) cid = Val (Some fp) ->
  _load_wrapper (w_convs w) fp = Some (JObj kv) ->
  assoc "encrypted_content" kv = Some (JStr b) ->
  b <> "" ->
  b64decode b = Some token ->
  fernet_decrypt (encryption_key st) token = Decrypted plaintext ->
  assoc "checksum" kv = None \/ assoc "checksum" kv = Some JNull \/
  assoc "checksum" kv = Some (JStr "") ->
  verify_conversation st w cid
  = Val (mk_result cid VALID (Some fp) (size_bytes_of (w_convs w) fp)
           (assoc "checksum" kv) (Some (sha256_hex plaintext)) None).
Proof.
  intros Hflag Hfind Hload Hb Hne H64 Hdec Hsum.
  pose proof (decrypt_bytes_ok st kv b token plaintext Hb Hne H64 Hdec) as Hd.
  pose proof (decrypt_bytes_nonempty st kv plaintext Hd) as Hkv.
  unfold verify_conversation, _ensure_key_matches_manifest.
  rewrite Hflag, Hfind. cbn. rewrite Hload.
  destruct kv as [|x kv']; [contradiction|].
  cbn [truthy]. unfold _verify_wrapper.
  cbn [py_get mbind res_bind rbind]. rewrite Hd. cbn [rbind].
  rewrite (falsy_checksum_cases _ Hsum). cbn. reflexivity.
Qed.






(** ** Locating a wrapper by its token name *)

Lemma iter_archive_files_In (pattern : string) c (p : path) :
  In p (_iter_archive_files pattern c) <->
  exists files e, In (fst p, DateDir files) c /\ In (snd p, e) files /\
                  glob_match pattern (snd p) = true.
Proof.
  unfold _iter_archive_files. rewrite in_flat_map. split.
  - intros ([d nd] & Hin & Hp). simpl in Hp. destruct nd as [files|]; [|contradiction].
    apply in_map_iff in Hp as ([n e] & <- & Hn). simpl in *.
    apply list_elem_of_In, list_elem_of_filter in Hn as [Hg Hn].
    apply list_elem_of_In in Hn. eauto.
  - intros (files & e & Hd & Hn & Hg). exists (fst p, DateDir files). split; [exact Hd|].
    simpl. apply in_map_iff. exists (snd p, e). split; [destruct p; reflexivity|].
    apply list_elem_of_In, list_elem_of_filter. split; [exact Hg|].
    apply list_elem_of_In. exact Hn.
Qed.

Lemma head_all_same {A : Type} (x : A) (l : list A) :
  In x l -> (forall y, In y l -> y = x) -> head l = Some x.
Proof.
  destruct l as [|y l]; [contradiction|]. intros _ Hall. simpl.
  f_equal. apply Hall. left. reflexivity.
Qed.

Lemma lookup_file_In c (p : path) e :
  lookup_file c p = Some e ->
  exists files, In (fst p, DateDir files) c /\ In (snd p, e) files.
Proof.
  unfold lookup_file. destruct (assoc (fst p) c) as [[files|]|] eqn:E; try discriminate.
  intros H. exists files. split; apply assoc_In; assumption.
Qed.

Lemma find_by_new_token_unique c (cid day : string) e :
  token_name_exact cid ->
  only_in day (wrapper_name cid) c ->
  lookup_file c (day, wrapper_name cid) = Some e ->
  _find_by_new_token c cid = Some (day, wrapper_name cid).
Proof.
  intros Hexact Honly Hlook. unfold _find_by_new_token.
  apply head_all_same.
  - apply iter_archive_files_In.
    destruct (lookup_file_In _ _ _ Hlook) as (files & Hd & Hn).
    exists files, e. repeat split; try assumption.
    apply Hexact. reflexivity.
  - intros [d n] Hy. apply iter_archive_files_In in Hy as (files & e' & Hd & Hn & Hg).
    simpl in *. apply Hexact in Hg. subst n.
    rewrite (Honly d files e' Hd Hn). reflexivity.
Qed.

Lemma find_wrapper_unique c (cid day : string) e :
  token_name_exact cid ->
  only_in day (wrapper_name cid) c ->
  lookup_file c (day, wrapper_name cid) = Some e ->
  find_wrapper_path_for_conversation c cid = Val (Some (day, wrapper_name cid)).
Proof.
  intros Hexact Honly Hlook. unfold find_wrapper_path_for_conversation.
  rewrite (find_by_new_token_unique c cid day e Hexact Honly Hlook). reflexivity.
Qed.

Lemma In_insert_at {A : Type} (x y : A) n l :
  In x (insert_at n y l) -> x = y \/ In x l.
Proof.
  unfold insert_at. intros H. apply in_app_or in H as [H|[H|H]].
  - right. rewrite <- (take_drop n l). apply in_or_app. left. exact H.
  - left. symmetry. exact H.
  - right. rewrite <- (take_drop n l). apply in_or_app. right. exact H.
Qed.

Lemma In_assoc_set {A : Type} (k k' : string) (v v' : A) l :
  In (k', v') (assoc_set k v l) -> (k' = k /\ v' = v) \/ In (k', v') l.
Proof.
  induction l as [|[k0 v0] l IH]; simpl.
  - intros [[= <- <-]|[]]. left. split; reflexivity.
  - destruct (String.eqb k k0).
    + intros [[= <- <-]|H]; [left; split; reflexivity|right; right; exact H].
    + intros [H|H]; [right; left; exact H|].
      destruct (IH H) as [H'|H']; [left; exact H'|right; right; exact H'].
Qed.

Lemma In_put_file pos name content files n e :
  In (n, e) (put_file pos name content files) ->
  (n = name /\ e = File content) \/ In (n, e) files.
Proof.
  unfold put_file. destruct (assoc name files).
  - apply In_assoc_set.
  - intros H. apply In_insert_at in H as [[= -> ->]|H]; [left; split; reflexivity|right; exact H].
Qed.

Lemma only_in_mkdir env c c1 name :
  mkdir_date env c = Val c1 ->
  only_in (today env) name c -> only_in (today env) name c1.
Proof.
  unfold mkdir_date. intros H Honly.
  destruct (fault env); try discriminate;
    (destruct (assoc (today env) c) as [[files|]|]; inversion H; subst; clear H;
     [exact Honly|]; intros d fs e Hd Hn;
     apply In_insert_at in Hd as [[= -> ->]|Hd]; [contradiction|];
     exact (Honly d fs e Hd Hn)).
Qed.

Lemma only_in_write pos day name content c :
  only_in day name c -> only_in day name (write_wrapper pos (day, name) content c).
Proof.
  intros Honly. unfold write_wrapper. simpl.
  destruct (assoc day c) as [[files|]|] eqn:E; try exact Honly.
  intros d fs e Hd Hn. apply In_assoc_set in Hd as [[-> _]|Hd]; [reflexivity|].
  exact (Honly d fs e Hd Hn).
Qed.

(** ** The write path *)

Lemma store_try_success st env conversation metadata_dict c c2 :
  store_try st env conversation metadata_dict c = (Val tt, c2) ->
  exists plaintext c1 cid text,
    json_dumps conversation = Some plaintext /\
    mkdir_date env c = Val c1 /\
    filed_under metadata_dict = Val cid /\
    json_dumps (wrapper_doc st env metadata_dict plaintext) = Some text /\
    fault env = NoFault /\
    c2 = write_wrapper (file_pos env) (_wrapper_path_for cid (today env)) text c1.
Proof.
  unfold store_try, filed_under, wrapper_doc. intros H.
  destruct (json_dumps conversation) as [plaintext|]; [|discriminate].
  destruct (mkdir_date env c) as [c1|e] eqn:Emk; [|discriminate].
  destruct (v ← store_conv_id metadata_dict; py_encode v) as [cid|e] eqn:Ecid;
    [|discriminate].
  exists plaintext, c1, cid.
  destruct (mkdir_date_spec _ _ _ Emk) as [Hnm _].
  destruct (fault env) eqn:Ef;
    destruct (lookup_file c1 (_wrapper_path_for cid (today env))) as [[content|]|];
    try discriminate; try congruence;
    match type of H with
    | context [json_dumps ?o] =>
        destruct (json_dumps o) as [text|] eqn:Ed; [|discriminate]
    end;
    inversion H; subst; exists text; repeat split; reflexivity.
Qed.


(** C8.  Whatever calls of [acquire] (successful or not) and of
    [release] a lock file has gone through, in any order and whatever
    other processes did to the lock, [release] does not raise and leaves
    the lock released: the object holds no file, and no file of the
    process holds the lock.  A further [release] changes nothing. *)
Theorem release_is_idempotent (b : backend) (s : LockFile * os_lock)
  (r r' : release_env) :
  lock_reachable b s ->
  fst (release r s) = Val tt /\
  released (snd (release r s)) /\
  release r' (snd (release r s)) = (Val tt, snd (release r s)).
Proof.
  intros Hreach. destruct (lock_reachable_inv b s Hreach) as [Hinv Hflag].
  destruct (release_spec r s Hinv Hflag) as (Hval & Hrel & _).
  split; [exact Hval|]. split; [exact Hrel|].
  destruct Hrel as (Hacq & _). unfold release at 1. rewrite Hacq. reflexivity.
Qed.

(** ** The key manager *)

(** C5, as the code has it.  [get_or_create_key] never returns a key
    that fails to parse.  A stored key that fails to parse is treated as
    absent: when neither the credential manager nor the fallback file holds
    a key that parses, the key returned is a new one, and it has been
    written to the credential manager (to the fallback file when there is
    no credential manager or it refuses), in the place of what was
    there. *)
Theorem get_or_create_key_valid (env : key_env) (w : world) (k : string) :
  fernet_valid (fernet_generate_key (entropy env)) = true ->
  fst (get_or_create_key env w) = Val k ->
  fernet_valid k = true /\
  (usable_keyring env w = None -> usable_keyfile w = None ->
   k = fernet_generate_key (entropy env) /\
   let w' := snd (get_or_create_key env w) in
   if has_keyring env && negb (keyring_set_fails env)
   then w_keyring w' = Some k
   else w_keyfile w' = Some k).
Proof.
  intros Hgen. unfold get_or_create_key, usable_keyring, usable_keyfile,
    _store_key_locally.
  destruct (has_keyring env) eqn:Hk; cbn [andb negb].
  - destruct (keyring_get_fails env); [discriminate|].
    destruct (w_keyring w) as [stored|] eqn:Ering.
    + destruct (negb (String.eqb stored "") && fernet_valid stored) eqn:Eok.
      * cbn. intros [= <-]. apply andb_prop in Eok as [_ Hv].
        split; [exact Hv|]. discriminate.
      * destruct (w_keyfile w) as [text|] eqn:Efile.
        -- destruct (keyfile_read_fails env); [discriminate|].
           destruct (fernet_valid (strip text)) eqn:Ev.
           ++ cbn. intros [= <-]. split; [exact Ev|]. discriminate.
           ++ destruct (keyring_set_fails env); cbn [negb];
                [destruct (keyfile_fault env); cbn; try discriminate|cbn];
                intros [= <-]; split; auto.
        -- destruct (keyring_set_fails env); cbn [negb];
             [destruct (keyfile_fault env); cbn; try discriminate|cbn];
             intros [= <-]; split; auto.
    + destruct (w_keyfile w) as [text|] eqn:Efile.
      * destruct (keyfile_read_fails env); [discriminate|].
        destruct (fernet_valid (strip text)) eqn:Ev.
        -- cbn. intros [= <-]. split; [exact Ev|]. discriminate.
        -- destruct (keyring_set_fails env); cbn [negb];
             [destruct (keyfile_fault env); cbn; try discriminate|cbn];
             intros [= <-]; split; auto.
      * destruct (keyring_set_fails env); cbn [negb];
          [destruct (keyfile_fault env); cbn; try discriminate|cbn];
          intros [= <-]; split; auto.
  - destruct (w_keyfile w) as [text|] eqn:Efile.
    + destruct (keyfile_read_fails env); [discriminate|].
      destruct (fernet_valid (strip text)) eqn:Ev.
      * cbn. intros [= <-]. split; [exact Ev|]. discriminate.
      * destruct (keyfile_fault env); cbn; try discriminate;
          intros [= <-]; split; auto.
    + destruct (keyfile_fault env); cbn; try discriminate;
        intros [= <-]; split; auto.
Qed.

(** ** Round trip *)

Lemma filed_under_id kv (cid : string) :
  assoc "id" kv = Some (JStr cid) -> cid <> "" ->
  filed_under (JObj kv) = Val cid.
Proof.
  intros Hid Hne. unfold filed_under, store_conv_id. cbn. rewrite Hid.
  assert (Ht : truthy (JStr cid) = true).
  { cbn. destruct (String.eqb_spec cid ""); [contradiction|reflexivity]. }
  rewrite Ht. cbn [negb orb]. destruct (eq_str (JStr cid) "unknown");
    rewrite ?Ht; reflexivity.
Qed.

(** What a successful [store_conversation] leaves on disk. *)
Lemma store_success (st : LocalEncryptedStore) env r kv cid w w' :
  assoc "id" kv = Some (JStr cid) -> cid <> "" ->
  store_conversation st env r (JObj kv) w = (Val true, w') ->
  only_in (today env) (wrapper_name cid) (w_convs w) ->
  exists plaintext text,
    json_dumps r = Some plaintext /\
    json_dumps (wrapper_doc st env (JObj kv) plaintext) = Some text /\
    lookup_file (w_convs w') (today env, wrapper_name cid) = Some (File text) /\
    only_in (today env) (wrapper_name cid) (w_convs w').
Proof.
  intros Hid Hne Hstore Honly. unfold store_conversation in Hstore.
  destruct (store_try st env r (JObj kv) (w_convs w)) as [[[]|e] c2] eqn:Etry;
    [|discriminate].
  inversion Hstore; subst; clear Hstore.
  destruct (store_try_success _ _ _ _ _ _ Etry)
    as (p & c1 & cid' & text & Hd & Hmk & Hcid & Hdoc & Hf & ->).
  rewrite (filed_under_id kv cid Hid Hne) in Hcid. inversion Hcid; subst cid'.
  destruct (mkdir_date_spec _ _ _ Hmk) as (_ & [files Hfiles] & _).
  exists p, text. cbn [w_convs set_convs]. repeat split; try assumption.
  - eapply lookup_write_eq. exact Hfiles.
  - apply only_in_write. eapply only_in_mkdir; eassumption.
Qed.

Lemma verify_wrapper_doc (st : LocalEncryptedStore) env md p c cid fp
  (checksum : string) (return_content : bool) :
  cipher_round_trips (encryption_key st) (nonce env) p ->
  _verify_wrapper st c cid fp
    (stored_obj md (b64encode (fernet_encrypt (encryption_key st) (nonce env) p))
       checksum (now_iso env)) return_content
  = if negb (String.eqb checksum "") && negb (String.eqb checksum (sha256_hex p))
    then Val (mk_result cid CORRUPT (Some fp) (size_bytes_of c fp)
                (Some (JStr checksum)) (Some (sha256_hex p))
                (Some "CHECKSUM_MISMATCH"), None)
    else if negb return_content
    then Val (mk_result cid VALID (Some fp) (size_bytes_of c fp)
                (Some (JStr checksum)) (Some (sha256_hex p)) None, None)
    else match json_loads p with
         | Some content =>
             Val (mk_result cid VALID (Some fp) (size_bytes_of c fp)
                    (Some (JStr checksum)) (Some (sha256_hex p)) None, Some content)
         | None =>
             Val (mk_result cid UNKNOWN (Some fp) (size_bytes_of c fp)
                    (Some (JStr checksum)) (Some (sha256_hex p))
                    (Some "JSON_DECODE_FAIL"), None)
         end.
Proof.
  intros (Hdec & H64 & Hne). unfold _verify_wrapper, stored_obj.
  cbn [py_get mbind res_bind rbind assoc String.eqb Ascii.eqb Bool.eqb].
  erewrite decrypt_bytes_ok; [|reflexivity|exact Hne|exact H64|exact Hdec].
  cbn [rbind truthy_opt truthy eq_str]. reflexivity.
Qed.

(** C3, as the code has it.  On a store that is not poisoned, after
    [store_conversation] has answered [True] for a record and a metadata
    dict whose identifier is a non-empty string, [retrieve_conversation]
    of that identifier gives the record back, provided no directory of
    another day holds a wrapper file of the same token name, the record
    and the wrapper survive JSON, and the token survives the cipher and
    base64. *)
Theorem round_trip (st : LocalEncryptedStore) (env : store_env) (r : json)
  (kv : list (string * json)) (cid : string) (w w' : world) :
  _key_mismatch st = false ->
  assoc "id" kv = Some (JStr cid) -> cid <> "" ->
  store_conversation st env r (JObj kv) w = (Val true, w') ->
  only_in (today env) (wrapper_name cid) (w_convs w) ->
  token_name_exact cid ->
  round_trips r ->
  (forall p, json_dumps r = Some p ->
             round_trips (wrapper_doc st env (JObj kv) p) /\
             cipher_round_trips (encryption_key st) (nonce env) p) ->
  retrieve_conversation st w' cid = Val r.
Proof.
  intros Hflag Hid Hne Hstore Honly Hexact Hr Hlib.
  destruct (store_success st env r kv cid w w' Hid Hne Hstore Honly)
    as (p & text & Hd & Hdoc & Hlook & Honly').
  destruct (Hlib p Hd) as [Hwrap Hcipher].
  unfold retrieve_conversation, _ensure_key_matches_manifest.
  rewrite Hflag. cbn [negb].
  rewrite (find_wrapper_unique _ cid (today env) _ Hexact Honly' Hlook).
  cbn [mbind res_bind rbind]. unfold _load_wrapper. rewrite Hlook.
  rewrite (Hwrap text Hdoc). unfold wrapper_doc at 1. cbn [truthy stored_obj].
  unfold wrapper_doc. rewrite (verify_wrapper_doc st env (JObj kv) p _ cid _ _ true Hcipher).
  rewrite String.eqb_refl, andb_false_r. cbn [negb].
  rewrite (Hr p Hd). reflexivity.
Qed.

(** ** Tampering with the checksum *)

(** C4, as the code has it.  On a store that is not poisoned, after a
    successful [store_conversation], when no directory of another day
    holds a wrapper file of the same token name, rewriting the wrapper
    with one byte of its checksum changed makes [verify_conversation]
    answer CORRUPT with CHECKSUM_MISMATCH, the stored and the recomputed
    checksum side by side. *)
Theorem tamper_detected (st : LocalEncryptedStore) (env : store_env) (r : json)
  (kv : list (string * json)) (cid checksum' : string) (w w1 w2 : world) :
  _key_mismatch st = false ->
  assoc "id" kv = Some (JStr cid) -> cid <> "" ->
  store_conversation st env r (JObj kv) w = (Val true, w1) ->
  only_in (today env) (wrapper_name cid) (w_convs w) ->
  token_name_exact cid ->
  (forall p, json_dumps r = Some p ->
             one_byte_changed (sha256_hex p) checksum' /\
             round_trips (wrapper_doc st env (JObj kv) p) /\
             round_trips (set_checksum checksum' (wrapper_doc st env (JObj kv) p)) /\
             cipher_round_trips (encryption_key st) (nonce env) p) ->
  tamper_checksum (today env, wrapper_name cid) checksum' w1 = Some w2 ->
  exists p,
    json_dumps r = Some p /\
    verify_conversation st w2 cid
    = Val (mk_result cid CORRUPT (Some (today env, wrapper_name cid))
             (size_bytes_of (w_convs w2) (today env, wrapper_name cid))
             (Some (JStr checksum')) (Some (sha256_hex p))
             (Some "CHECKSUM_MISMATCH")).
Proof.
  intros Hflag Hid Hne Hstore Honly Hexact Hlib Htamper.
  destruct (store_success st env r kv cid w w1 Hid Hne Hstore Honly)
    as (p & text & Hd & Hdoc & Hlook & Honly1).
  destruct (Hlib p Hd) as (Hbyte & Hwrap & Hwrap' & Hcipher).
  exists p. split; [exact Hd|].
  unfold tamper_checksum, _load_wrapper in Htamper. rewrite Hlook in Htamper.
  rewrite (Hwrap text Hdoc) in Htamper.
  destruct (json_dumps (set_checksum checksum' (wrapper_doc st env (JObj kv) p)))
    as [text'|] eqn:Hdoc'; [|discriminate].
  inversion Htamper; subst w2; clear Htamper.
  destruct (lookup_file_In _ _ _ Hlook) as (files & _ & _).
  assert (Hlook2 : lookup_file
                     (write_wrapper 0 (today env, wrapper_name cid) text' (w_convs w1))
                     (today env, wrapper_name cid) = Some (File text')).
  { unfold lookup_file in Hlook. cbn [fst snd] in Hlook.
    destruct (assoc (today env) (w_convs w1)) as [[fs|]|] eqn:E; try discriminate.
    eapply lookup_write_eq. exact E. }
  pose proof (only_in_write 0 _ _ text' _ Honly1) as Honly2.
  unfold verify_conversation, _ensure_key_matches_manifest.
  rewrite Hflag. cbn [negb w_convs set_convs].
  rewrite (find_wrapper_unique _ cid (today env) _ Hexact Honly2 Hlook2).
  cbn [mbind res_bind rbind]. unfold _load_wrapper. rewrite Hlook2.
  rewrite (Hwrap' text' Hdoc').
  unfold wrapper_doc, stored_obj, set_checksum.
  cbn [assoc_set String.eqb Ascii.eqb Bool.eqb truthy].
  change (JObj [("metadata", JObj kv);
                ("encrypted_content",
                 JStr (b64encode (fernet_encrypt (encryption_key st) (nonce env) p)));
                ("encryption_version", JStr "fernet-v1");
                ("checksum", JStr checksum');
                ("archived_at", JStr (now_iso env));
                ("version", JStr STORAGE_VERSION)])
    with (stored_obj (JObj kv)
            (b64encode (fernet_encrypt (encryption_key st) (nonce env) p))
            checksum' (now_iso env)).
  rewrite (verify_wrapper_doc st env (JObj kv) p _ cid _ checksum' false Hcipher).
  destruct (one_byte_changed_neq _ _ Hbyte) as [Hne1 Hne2].
  destruct (String.eqb_spec checksum' ""); [contradiction|].
  destruct (String.eqb_spec checksum' (sha256_hex p)); [contradiction|].
  reflexivity.
Qed.

(** ** The export loop *)

Lemma early_warning_counts (k : counters) :
  successful (early_warning k) = successful k /\
  failed_count (early_warning k) = failed_count k.
Proof.
  unfold early_warning. destruct (25 <=? consecutive_detail_failures k);
    split; reflexivity.
Qed.

Lemma store_conversation_jobs st env conversation metadata_dict w :
  w_jobs (snd (store_conversation st env conversation metadata_dict w)) = w_jobs w.
Proof.
  unfold store_conversation.
  destruct (store_try st env conversation metadata_dict (w_convs w)) as [[u|e] c];
    reflexivity.
Qed.

(** Every turn of the loop counts its entry once, as a success or as a
    failure, and leaves the job table alone. *)
Lemma process_item_spec st force job_id ienv m k w :
  w_jobs (snd (process_item st force job_id ienv m (k, w))) = w_jobs w /\
  successful (fst (process_item st force job_id ienv m (k, w)))
  + failed_count (fst (process_item st force job_id ienv m (k, w)))
  = successful k + failed_count k + 1 /\
  successful k <= successful (fst (process_item st force job_id ienv m (k, w))).
Proof.
  unfold process_item.
  pose proof (store_conversation_jobs st (item_store_env ienv)) as Hjobs.
  destruct (negb force && negb (String.eqb (default "unknown" (meta_id m)) "unknown"));
    [destruct (has_valid_conversation st w (default "unknown" (meta_id m)))
       as [[|]|e]|];
    try (destruct (detail ienv) as [full_conv|e'];
         [destruct (truthy full_conv);
          [specialize (Hjobs full_conv (stored_metadata m job_id) w);
           destruct (store_conversation st (item_store_env ienv) full_conv
                       (stored_metadata m job_id) w) as [[[|]|e''] w']|]
         |destruct (exc_kind_of e')]);
    cbn [fst snd] in *;
    repeat match goal with
           | |- context [early_warning ?x] =>
               let H1 := fresh in let H2 := fresh in
               destruct (early_warning_counts x) as [H1 H2];
               rewrite ?H1, ?H2; clear H1 H2
           end;
    cbn [successful failed_count count_success count_detail_failure
         count_storage_failure];
    (split; [first [assumption | reflexivity]|split; lia]).
Qed.

Lemma export_loop_spec st force job_id ienv l :
  forall i k w,
    w_jobs (snd (export_loop st force job_id ienv i l (k, w))) = w_jobs w /\
    successful (fst (export_loop st force job_id ienv i l (k, w)))
    + failed_count (fst (export_loop st force job_id ienv i l (k, w)))
    = successful k + failed_count k + Z.of_nat (length l) /\
    successful k <= successful (fst (export_loop st force job_id ienv i l (k, w))).
Proof.
  induction l as [|m l IH]; intros i k w.
  - cbn [export_loop fst snd length]. repeat split; lia.
  - cbn [export_loop].
    destruct (process_item_spec st force job_id (ienv i) m k w) as (Hj & Hsum & Hle).
    destruct (process_item st force job_id (ienv i) m (k, w)) as [k' w'].
    cbn [fst snd] in Hj, Hsum, Hle.
    destruct (IH (S i) k' w') as (Hj' & Hsum' & Hle').
    rewrite Hj', Hj, Hsum', Hsum. cbn [length].
    repeat split; lia.
Qed.

Lemma has_valid_convs st w w' cid :
  w_convs w = w_convs w' ->
  has_valid_conversation st w cid = has_valid_conversation st w' cid.
Proof.
  intros H. unfold has_valid_conversation, verify_conversation. rewrite H.
  reflexivity.
Qed.

(** An entry that verifies is counted as a success; nothing is fetched,
    nothing is written. *)
Lemma process_item_skip st job_id ienv m k w :
  skips st (w_convs w) m = true ->
  process_item st false job_id ienv m (k, w) = (count_success k, w).
Proof.
  unfold skips, process_item. destruct (meta_id m) as [conv_id|]; [|discriminate].
  intros H. apply andb_prop in H as [Hid Hvalid]. simpl.
  rewrite Hid. simpl.
  rewrite (has_valid_convs st w (mk_world None None None (w_convs w) ∅) conv_id eq_refl).
  destruct (has_valid_conversation st (mk_world None None None (w_convs w) ∅) conv_id)
    as [[|]|e]; try discriminate.
  reflexivity.
Qed.

Lemma export_loop_skip_prefix st job_id ienv l1 l2 :
  forall i k w,
    (forall m, In m l1 -> skips st (w_convs w) m = true) ->
    exists k',
      export_loop st false job_id ienv i (l1 ++ l2) (k, w)
      = export_loop st false job_id ienv (i + length l1) l2 (k', w) /\
      successful k' = successful k + Z.of_nat (length l1) /\
      failed_count k' = failed_count k.
Proof.
  induction l1 as [|m l1 IH]; intros i k w Hall.
  - exists k. cbn [app length]. rewrite Nat.add_0_r. repeat split; lia.
  - cbn [app export_loop].
    rewrite (process_item_skip st job_id (ienv i) m k w (Hall m (or_introl eq_refl))).
    destruct (IH (S i) (count_success k) w (fun m' H => Hall m' (or_intror H)))
      as (k' & Heq & Hs & Hf).
    exists k'. rewrite Heq. cbn [length].
    replace (i + S (length l1))%nat with (S i + length l1)%nat by lia.
    cbn [count_success successful failed_count] in Hs, Hf.
    repeat split; [lia|exact Hf].
Qed.

Lemma store_key_locally_jobs env key w :
  w_jobs (snd (_store_key_locally env key w)) = w_jobs w /\
  w_convs (snd (_store_key_locally env key w)) = w_convs w.
Proof. unfold _store_key_locally. destruct (keyfile_fault env); split; reflexivity. Qed.

Lemma get_or_create_key_jobs env w :
  w_jobs (snd (get_or_create_key env w)) = w_jobs w /\
  w_convs (snd (get_or_create_key env w)) = w_convs w.
Proof.
  unfold get_or_create_key.
  pose proof (store_key_locally_jobs env (fernet_generate_key (entropy env)) w) as Hl.
  destruct (_store_key_locally env (fernet_generate_key (entropy env)) w) as [[u|e] w'];
    simpl in Hl;
    repeat match goal with
           | |- context [if ?b then _ else _] => destruct b
           | |- context [match ?o with Some _ => _ | None => _ end] => destruct o
           end; simpl; auto.
Qed.

Lemma load_or_init_manifest_jobs env fingerprint w :
  w_jobs (snd (_load_or_init_manifest env fingerprint w)) = w_jobs w /\
  w_convs (snd (_load_or_init_manifest env fingerprint w)) = w_convs w.
Proof.
  unfold _load_or_init_manifest.
  destruct (w_manifest w) as [text|].
  - destruct (manifest_read_fails env); [split; reflexivity|].
    destruct (json_loads text) as [data|]; [|split; reflexivity].
    destruct (py_get data "key_fingerprint"); split; reflexivity.
  - cbv zeta. destruct (json_dumps _); [|split; reflexivity].
    destruct (manifest_write_fails env); split; reflexivity.
Qed.

Lemma store_init_jobs env w :
  w_jobs (snd (store_init env w)) = w_jobs w /\
  w_convs (snd (store_init env w)) = w_convs w.
Proof.
  unfold store_init.
  pose proof (get_or_create_key_jobs (init_key_env env) w) as Hk.
  destruct (get_or_create_key (init_key_env env) w) as [[key|e] w1];
    simpl in Hk; [|exact Hk].
  destruct (fernet_valid key); [|exact Hk].
  cbv zeta.
  pose proof (load_or_init_manifest_jobs env (prefix_n 16 (sha256_hex key)) w1) as Hm.
  destruct (_load_or_init_manifest env (prefix_n 16 (sha256_hex key)) w1) as [b w2].
  simpl in *. destruct Hk as [Hj Hc], Hm as [Hj' Hc'].
  split; congruence.
Qed.

End Properties.

Lemma poisoned_fails_closed_witness :
  store_init Sample.init_env0 Sample.mismatch_world
  = (Val Sample.poisoned, Sample.mismatch_world) /\
  _key_mismatch Sample.poisoned = true /\
  forall (w' : world) (cid : string),
    verify_conversation Sample.poisoned w' cid = Val (wrong_key_result cid) /\
    retrieve_conversation Sample.poisoned w' cid = Val JNull.
Proof.
  split; [vm_compute; reflexivity|].
  apply (poisoned_fails_closed (P:=ref_platform) Sample.init_env0
           Sample.mismatch_world Sample.mismatch_world Sample.poisoned
           Sample.manifest_text Sample.manifest_doc
           (JStr (Sample.fingerprint_of Sample.other_key)));
    vm_compute; reflexivity.
Defined.


Lemma missing_checksum_is_valid_witness :
  state <$> (match verify_conversation Sample.store (Sample.world_with []) "abc123" with
             | Val r => Some r | Raise _ => None end) = Some VALID /\
  error_code <$> (match verify_conversation Sample.store
                          (Sample.world_with [("checksum", JStr "")]) "abc123" with
                  | Val r => Some r | Raise _ => None end) = Some None.
Proof.
  split.
  - rewrite (missing_checksum_is_valid (P:=ref_platform) Sample.store
               (Sample.world_with []) "abc123" ("2024-05-02", Sample.name_abc123)
               (Sample.wrapper_fields []) Sample.token64 (Ref.encrypt Sample.key "iv" Sample.plaintext)
               Sample.plaintext eq_refl);
      try (vm_compute; reflexivity).
    + vm_compute. discriminate.
    + left. vm_compute. reflexivity.
  - rewrite (missing_checksum_is_valid (P:=ref_platform) Sample.store
               (Sample.world_with [("checksum", JStr "")]) "abc123"
               ("2024-05-02", Sample.name_abc123)
               (Sample.wrapper_fields [("checksum", JStr "")]) Sample.token64 (Ref.encrypt Sample.key "iv" Sample.plaintext)
               Sample.plaintext eq_refl);
      try (vm_compute; reflexivity).
    + vm_compute. discriminate.
    + right. right. vm_compute. reflexivity.
Defined.

Lemma held_lock_reachable : lock_reachable Fcntl Sample.held_lock.
Proof.
  eapply reach_step.
  - apply (reach_init Fcntl Free). left. reflexivity.
  - apply (step_acquire 5000 [Sample.quiet] _ true). reflexivity.
Qed.

Lemma refused_lock_reachable : lock_reachable Fcntl Sample.refused_lock.
Proof.
  eapply reach_step.
  - apply (reach_init Fcntl HeldElsewhere). right. reflexivity.
  - apply (step_acquire 5000 [Sample.quiet; Sample.late] _ false). reflexivity.
Qed.

Lemma release_is_idempotent_witness :
  released (snd (release (mk_release_env false) Sample.held_lock)) /\
  released (snd (release (mk_release_env true) Sample.held_lock)) /\
  release (mk_release_env false) Sample.refused_lock = (Val tt, Sample.refused_lock) /\
  holder (snd (snd (release (mk_release_env false) Sample.held_lock))) = Free.
Proof.
  split; [|split; [|split]].
  - apply (release_is_idempotent Fcntl Sample.held_lock (mk_release_env false)
             (mk_release_env false) held_lock_reachable).
  - apply (release_is_idempotent Fcntl Sample.held_lock (mk_release_env true)
             (mk_release_env false) held_lock_reachable).
  - reflexivity.
  - reflexivity.
Defined.

Lemma get_or_create_key_valid_witness :
  fst (get_or_create_key Sample.key_env0 Sample.bad_key_world)
  = Val (Ref.generate_key "seed") /\
  Ref.valid_key (Ref.generate_key "seed") = true /\
  w_keyring (snd (get_or_create_key Sample.key_env0 Sample.bad_key_world))
  = Some (Ref.generate_key "seed").
Proof.
  destruct (get_or_create_key_valid (P:=ref_platform) Sample.key_env0
              Sample.bad_key_world (Ref.generate_key "seed") eq_refl eq_refl)
    as [Hvalid Hnew].
  split; [reflexivity|]. split; [exact Hvalid|].
  exact (proj2 (Hnew eq_refl eq_refl)).
Defined.

(** C5, as the specification states it, fails: the text the credential
    manager held, which was no key, has been replaced by a new key. *)
Lemma unparsable_key_is_replaced :
  w_keyring Sample.bad_key_world = Some "not-a-key" /\
  Ref.valid_key "not-a-key" = false /\
  exists new_key,
    get_or_create_key Sample.key_env0 Sample.bad_key_world
    = (Val new_key, set_keyring (Some new_key) Sample.bad_key_world) /\
    new_key <> "not-a-key".
Proof.
  split; [reflexivity|]. split; [reflexivity|].
  exists (Ref.generate_key "seed"). split; [reflexivity|].
  vm_compute. discriminate.
Qed.



Lemma sample_token_name_exact : token_name_exact (P:=ref_platform) "abc123".
Proof. apply ref_token_name_exact. vm_compute. reflexivity. Qed.

Lemma sample_libraries (p : string) :
  Ref.dumps Sample.record = Some p ->
  round_trips (P:=ref_platform)
    (wrapper_doc (P:=ref_platform) Sample.store (Sample.env_on "2024-05-02")
       (JObj Sample.metadata_fields) p) /\
  cipher_round_trips (P:=ref_platform) Sample.key "iv" p.
Proof.
  intros Hp. vm_compute in Hp. inversion Hp; subst; clear Hp. split.
  - intros s Hs. vm_compute in Hs. inversion Hs; subst; clear Hs.
    vm_compute. reflexivity.
  - vm_compute. repeat split. discriminate.
Qed.

Lemma round_trip_witness :
  retrieve_conversation Sample.store Sample.stored_world "abc123" = Val Sample.record.
Proof.
  apply (round_trip (P:=ref_platform) Sample.store (Sample.env_on "2024-05-02")
           Sample.record Sample.metadata_fields "abc123"
           Sample.empty_world Sample.stored_world).
  - reflexivity.
  - reflexivity.
  - discriminate.
  - vm_compute. reflexivity.
  - intros d files e [].
  - exact sample_token_name_exact.
  - intros s Hs. vm_compute in Hs. inversion Hs; subst; clear Hs.
    vm_compute. reflexivity.
  - exact sample_libraries.
Defined.

(** C3, as the specification states it, fails: the identifier was stored
    the day before as well, the lookup meets the wrapper of that day first,
    and [retrieve_conversation] gives the old record. *)
Lemma stale_wrapper_is_retrieved :
  _key_mismatch Sample.store = false /\
  store_conversation Sample.store Sample.env_second_day Sample.record
    Sample.metadata Sample.old_world = (Val true, Sample.twice_world) /\
  retrieve_conversation Sample.store Sample.twice_world "abc123"
  = Val Sample.old_record /\
  Sample.old_record <> Sample.record.
Proof.
  split; [reflexivity|]. split; [vm_compute; reflexivity|].
  split; [vm_compute; reflexivity|]. discriminate.
Qed.

Lemma tamper_detected_witness :
  exists w2,
    tamper_checksum (P:=ref_platform) ("2024-05-02", Sample.name_abc123)
      Sample.tampered_checksum Sample.stored_world = Some w2 /\
    state_of (verify_conversation Sample.store w2 "abc123") = Some CORRUPT /\
    error_code_of (verify_conversation Sample.store w2 "abc123")
    = Some (Some "CHECKSUM_MISMATCH").
Proof.
  destruct (tamper_checksum (P:=ref_platform) ("2024-05-02", Sample.name_abc123)
              Sample.tampered_checksum Sample.stored_world) as [w2|] eqn:Ht;
    [|vm_compute in Ht; discriminate].
  exists w2. split; [reflexivity|].
  destruct (tamper_detected (P:=ref_platform) Sample.store (Sample.env_on "2024-05-02")
              Sample.record Sample.metadata_fields "abc123" Sample.tampered_checksum
              Sample.empty_world Sample.stored_world w2) as (p & _ & Hv).
  - reflexivity.
  - reflexivity.
  - discriminate.
  - vm_compute. reflexivity.
  - intros d files e [].
  - exact sample_token_name_exact.
  - intros p Hp. destruct (sample_libraries p Hp) as [Hw Hc].
    vm_compute in Hp. inversion Hp; subst; clear Hp.
    split; [vm_compute; reflexivity|]. split; [exact Hw|]. split; [|exact Hc].
    intros s Hs. vm_compute in Hs. inversion Hs; subst; clear Hs.
    vm_compute. reflexivity.
  - exact Ht.
  - rewrite Hv. split; reflexivity.
Defined.

(** C4, as the specification states it, fails in two places: when the
    identifier was stored the day before as well, [verify_conversation]
    looks at the wrapper of that day and answers VALID whatever happened
    to the checksum of the new one; and a poisoned store, which does write
    the wrapper, answers UNREADABLE. *)
Lemma tamper_unnoticed :
  one_byte_changed (Ref.digest Sample.plaintext) Sample.tampered_checksum /\
  (store_conversation Sample.store Sample.env_second_day Sample.record
     Sample.metadata Sample.old_world = (Val true, Sample.twice_world) /\
   exists w2,
     tamper_checksum (P:=ref_platform) ("2024-05-02", Sample.name_abc123)
       Sample.tampered_checksum Sample.twice_world = Some w2 /\
     state_of (verify_conversation Sample.store w2 "abc123") = Some VALID) /\
  (store_conversation Sample.poisoned (Sample.env_on "2024-05-02") Sample.record
     Sample.metadata Sample.empty_world = (Val true, Sample.stored_world) /\
   exists w2,
     tamper_checksum (P:=ref_platform) ("2024-05-02", Sample.name_abc123)
       Sample.tampered_checksum Sample.stored_world = Some w2 /\
     state_of (verify_conversation Sample.poisoned w2 "abc123") = Some UNREADABLE).
Proof.
  split; [vm_compute; reflexivity|]. split.
  - split; [vm_compute; reflexivity|].
    destruct (tamper_checksum (P:=ref_platform) ("2024-05-02", Sample.name_abc123)
                Sample.tampered_checksum Sample.twice_world) as [w2|] eqn:Ht;
      [|vm_compute in Ht; discriminate].
    exists w2. split; [reflexivity|].
    vm_compute in Ht. inversion Ht; subst; clear Ht. vm_compute. reflexivity.
  - split; [vm_compute; reflexivity|].
    destruct (tamper_checksum (P:=ref_platform) ("2024-05-02", Sample.name_abc123)
                Sample.tampered_checksum Sample.stored_world) as [w2|] eqn:Ht;
      [|vm_compute in Ht; discriminate].
    exists w2. split; [reflexivity|]. reflexivity.
Qed.

(** * Further properties *)

(** ** The export run *)

Ltac process_item_cases st force job_id ienv m w :=
  unfold process_item;
  destruct (negb force && negb (String.eqb (default "unknown" (meta_id m)) "unknown"));
  [destruct (has_valid_conversation st w (default "unknown" (meta_id m)))
     as [[|]|?]|];
  try (destruct (detail ienv) as [full_conv|e'];
       [destruct (truthy full_conv);
        [destruct (store_conversation st (item_store_env ienv) full_conv
                     (stored_metadata m job_id) w) as [[[|]|?] ?]|]
       |destruct (exc_kind_of e')]);
  cbn [fst snd].

Ltac warning_cases :=
  unfold early_warning;
  repeat match goal with
         | |- context [25 <=? ?x] => destruct (Z.leb_spec 25 x)
         end;
  cbn [successful failed_count errs consecutive_detail_failures count_success
       count_detail_failure count_storage_failure] in *.

Ltac run_cases H :=
  unfold _run_export_locked in H;
  repeat match type of H with
         | context [match ?x with _ => _ end] => destruct x eqn:?
         end.

Section ExportProperties.

Context `{P : Platform}.

(** The loop appends one tag to the list of errors for each failure it
    counts. *)
Lemma process_item_errs st force job_id ienv m k w :
  Z.of_nat (length (errs (fst (process_item st force job_id ienv m (k, w)))))
  - failed_count (fst (process_item st force job_id ienv m (k, w)))
  = Z.of_nat (length (errs k)) - failed_count k.
Proof.
  process_item_cases st force job_id ienv m w; warning_cases;
    rewrite ?length_app; cbn [length]; lia.
Qed.

Lemma process_item_warning st force job_id ienv m k w :
  0 <= consecutive_detail_failures k < 25 ->
  0 <= consecutive_detail_failures (fst (process_item st force job_id ienv m (k, w))) < 25.
Proof.
  intros Hk. process_item_cases st force job_id ienv m w; warning_cases; lia.
Qed.

Lemma export_loop_errs st force job_id ienv l :
  forall i k w,
    Z.of_nat (length (errs (fst (export_loop st force job_id ienv i l (k, w)))))
    - failed_count (fst (export_loop st force job_id ienv i l (k, w)))
    = Z.of_nat (length (errs k)) - failed_count k.
Proof.
  induction l as [|m l IH]; intros i k w; [reflexivity|].
  cbn [export_loop].
  pose proof (process_item_errs st force job_id (ienv i) m k w) as H.
  destruct (process_item st force job_id (ienv i) m (k, w)) as [k' w'].
  rewrite IH. exact H.
Qed.

Lemma update_job_status_lookup j s u now w :
  w_jobs (update_job_status j s u now w) !! j
  = apply_update s u now <$> (w_jobs w !! j).
Proof. unfold update_job_status. cbn. apply lookup_alter_eq. Qed.

Lemma create_job_spec id now w a w0 :
  create_job id now w = (Val a, w0) ->
  a = id /\ w_jobs w !! id = None /\
  w_jobs w0 = <[id := mk_job now None 0 0 0 [] pending]> (w_jobs w) /\
  w_convs w0 = w_convs w.
Proof.
  unfold create_job. destruct (w_jobs w !! id) eqn:E; [discriminate|].
  intros [= <- <-]. repeat split; auto.
Qed.

(** The job a run works on has a row once the run has started. *)
Lemma start_job_exists env resume w a w0 :
  (if match resume with
      | Some j => negb (String.eqb j "")
      | None => false
      end
   then
     match get_job (default "" resume) w with
     | Some _ => (Val (default "" resume), w)
     | None =>
         (Raise (mk_exc ValueError ("Job " ++ default "" resume ++ " not found")), w)
     end
   else create_job (fresh_job_id env) (now_started env) w) = (Val a, w0) ->
  is_Some (w_jobs w0 !! a) /\ w_convs w0 = w_convs w.
Proof.
  destruct (match resume with Some j => negb (String.eqb j "") | None => false end).
  - unfold get_job. destruct (w_jobs w !! default "" resume) eqn:E; [|discriminate].
    intros [= <- <-]. split; [rewrite E; eauto|reflexivity].
  - intros H. apply create_job_spec in H as (-> & _ & Hj & Hc).
    split; [|exact Hc]. rewrite Hj, lookup_insert_eq. eauto.
Qed.

Lemma run_job_row env a w0 st w1 force l c w2 :
  is_Some (w_jobs w0 !! a) ->
  store_init (env_init env)
    (update_job_status a in_progress no_update (now_started env) w0) = (Val st, w1) ->
  export_loop st force a (items_env env) 1 l (zero_counters, w1) = (c, w2) ->
  exists row,
    w_jobs (update_job_status a completed (final_update (length l) c)
              (now_finished env) w2) !! a = Some row /\
    status row = completed /\
    completed_at row = Some (now_finished env) /\
    total_conversations row = Z.of_nat (length l) /\
    successful_conversations row + failed_conversations row = total_conversations row /\
    Z.of_nat (length (errors row)) = failed_conversations row.
Proof.
  intros [row0 Hrow] Hinit Hloop.
  destruct (export_loop_spec st force a (items_env env) l 1%nat zero_counters w1)
    as (Hj & Hsum & _).
  pose proof (export_loop_errs st force a (items_env env) l 1%nat zero_counters w1) as He.
  rewrite Hloop in Hj, Hsum, He. cbn [fst snd] in Hj, Hsum, He.
  destruct (store_init_jobs (env_init env)
              (update_job_status a in_progress no_update (now_started env) w0)) as [Hj1 _].
  rewrite Hinit in Hj1. cbn [snd] in Hj1.
  rewrite update_job_status_lookup, Hj, Hj1, update_job_status_lookup, Hrow.
  cbn. eexists. split; [reflexivity|]. cbn.
  cbn in Hsum, He. repeat split; lia.
Qed.

(** X1.  A run that returns while the API is available has walked the whole
    listing: the row of its job is [completed], carries the time of the
    end, its total is the length of the listing, successes and failures
    add up to the total, and the list of errors has one tag for each
    failure. *)
Theorem export_counts_add_up env resume force w j w' :
  _run_export_locked env resume force w = (Returned j, w') ->
  api_problem env = None ->
  exists l row,
    listing env = Val l /\ w_jobs w' !! j = Some row /\
    status row = completed /\
    completed_at row = Some (now_finished env) /\
    total_conversations row = Z.of_nat (length l) /\
    successful_conversations row + failed_conversations row = total_conversations row /\
    Z.of_nat (length (errors row)) = failed_conversations row.
Proof.
  intros H Hapi. run_cases H; try discriminate; try congruence.
  all: injection H as <- <-.
  all: pose proof (start_job_exists env resume w _ _ Heqp) as [Hrow _].
  all: destruct (run_job_row env _ _ _ _ force _ _ _ Hrow Heqp0 Heqp1) as (row & Hr).
  all: exists a1, row; split; [reflexivity|exact Hr].
Qed.

(** X2.  Integrity-aware skip: with [force_refetch] off, a listing whose
    entries all have a wrapper that verifies is counted through as
    successes; no detail is fetched (the outcome does not depend on what
    the remote side would answer), nothing is written, no error is noted. *)
Theorem valid_entries_are_skipped st job_id ienv l :
  forall i k w,
    (forall m, In m l -> skips st (w_convs w) m = true) ->
    export_loop st false job_id ienv i l (k, w)
    = (mk_counters (successful k + Z.of_nat (length l)) (failed_count k) (errs k)
         (consecutive_detail_failures k), w).
Proof.
  induction l as [|m l IH]; intros i k w Hall.
  - cbn [export_loop length]. destruct k. cbn. f_equal. f_equal. lia.
  - cbn [export_loop].
    rewrite (process_item_skip st job_id (ienv i) m k w (Hall m (or_introl eq_refl))).
    rewrite IH by (intros m' Hm'; apply Hall; right; exact Hm').
    cbn. f_equal. f_equal. lia.
Qed.

(** X3.  The early warning resets the count of consecutive detail
    failures when it reaches 25: the loop keeps it between 0 and 24. *)
Theorem warning_counter_bounded st force job_id ienv l :
  forall i k w,
    0 <= consecutive_detail_failures k < 25 ->
    0 <= consecutive_detail_failures
           (fst (export_loop st force job_id ienv i l (k, w))) < 25.
Proof.
  induction l as [|m l IH]; intros i k w Hk; [exact Hk|].
  cbn [export_loop].
  pose proof (process_item_warning st force job_id (ienv i) m k w Hk) as H.
  destruct (process_item st force job_id (ienv i) m (k, w)) as [k' w'].
  apply IH. exact H.
Qed.

(** X4.  Resuming a job that is not in the table raises [ValueError]
    before anything is touched: no row is made, no status is written. *)
Theorem resume_unknown_job_raises env j force w :
  j <> "" -> get_job j w = None ->
  _run_export_locked env (Some j) force w
  = (Raised (mk_exc ValueError ("Job " ++ j ++ " not found")), w).
Proof.
  intros Hj Hnone. unfold _run_export_locked.
  destruct (String.eqb_spec j "") as [|_]; [contradiction|].
  cbv beta iota zeta delta [negb default id]. rewrite Hnone. reflexivity.
Qed.

Lemma start_row_spec env resume w a w0 :
  (if match resume with
      | Some j => negb (String.eqb j "")
      | None => false
      end
   then
     match get_job (default "" resume) w with
     | Some _ => (Val (default "" resume), w)
     | None =>
         (Raise (mk_exc ValueError ("Job " ++ default "" resume ++ " not found")), w)
     end
   else create_job (fresh_job_id env) (now_started env) w) = (Val a, w0) ->
  a = run_job env resume /\
  exists r0, starting_row env resume w = Some r0 /\ w_jobs w0 !! a = Some r0 /\
             w_convs w0 = w_convs w.
Proof.
  unfold run_job, starting_row, get_job.
  destruct resume as [j|]; [destruct (String.eqb j "")|]; cbn [negb default id].
  2:{ destruct (w_jobs w !! j) as [r0|] eqn:E; [|discriminate].
      intros [= <- <-]. split; [reflexivity|]. exists r0. auto. }
  all: intros H; apply create_job_spec in H as (-> & Hn & Hj & Hc);
    split; [reflexivity|]; rewrite Hn; eexists; split; [reflexivity|];
    split; [rewrite Hj; apply lookup_insert_eq|exact Hc].
Qed.

Lemma store_init_world env w r w1 :
  store_init env w = (r, w1) -> w_jobs w1 = w_jobs w /\ w_convs w1 = w_convs w.
Proof. intros H. pose proof (store_init_jobs env w) as Hs. rewrite H in Hs. exact Hs. Qed.

Lemma export_loop_jobs st force job_id ienv i l k w :
  w_jobs (snd (export_loop st force job_id ienv i l (k, w))) = w_jobs w.
Proof. apply export_loop_spec. Qed.

Lemma start_raise_spec env resume w e w0 :
  (if match resume with
      | Some j => negb (String.eqb j "")
      | None => false
      end
   then
     match get_job (default "" resume) w with
     | Some _ => (Val (default "" resume), w)
     | None =>
         (Raise (mk_exc ValueError ("Job " ++ default "" resume ++ " not found")), w)
     end
   else create_job (fresh_job_id env) (now_started env) w) = (Raise e, w0) ->
  starting_row env resume w = None /\ w0 = w.
Proof.
  unfold starting_row, get_job, create_job.
  destruct resume as [j|]; [destruct (String.eqb j "")|]; cbn [negb default id].
  2:{ destruct (w_jobs w !! j) as [r0|] eqn:E; [discriminate|].
      intros [= <- <-]. auto. }
  all: destruct (w_jobs w !! fresh_job_id env); [|discriminate];
    intros [= <- <-]; auto.
Qed.

Lemma update_job_status_convs j s u now w :
  w_convs (update_job_status j s u now w) = w_convs w.
Proof. reflexivity. Qed.

Ltac started_row env resume w Hstart :=
  match goal with
  | Hp : _ = (Val _, _) |- _ =>
      destruct (start_row_spec env resume w _ _ Hp) as (-> & ?r & Hs & Hrow & Hconvs);
      rewrite Hstart in Hs; injection Hs as <-; clear Hp
  | Hp : _ = (Raise _, _) |- _ =>
      destruct (start_raise_spec env resume w _ _ Hp) as (Hs & _);
      rewrite Hstart in Hs; discriminate Hs
  end.

Ltac through_init :=
  try match goal with
      | Hi : store_init _ _ = _ |- _ =>
          let Hj := fresh in let Hc := fresh in
          destruct (store_init_world _ _ _ _ Hi) as [Hj Hc];
          rewrite ?update_job_status_convs in Hc
      end.



(** X7.  An interrupted run leaves the row of its job [in_progress] and
    writes none of its counts: total, successes, failures and errors are
    those of the row it started with (zeros for a new job). *)
Theorem interrupted_run_writes_no_counts env resume force w w' r0 :
  starting_row env resume w = Some r0 ->
  _run_export_locked env resume force w = (Interrupted, w') ->
  w_jobs w' !! run_job env resume
  = Some (mk_job (started_at r0) (completed_at r0) (total_conversations r0)
            (successful_conversations r0) (failed_conversations r0) (errors r0)
            in_progress).
Proof.
  intros Hstart H. run_cases H; try discriminate.
  injection H as <-.
  started_row env resume w Hstart; through_init.
  rewrite export_loop_jobs.
  match goal with Hj : w_jobs _ = w_jobs _ |- _ => rewrite Hj end.
  rewrite update_job_status_lookup, Hrow; reflexivity.
Qed.

End ExportProperties.

(** ** The export run on the reference platform *)

Lemma export_counts_add_up_witness :
  exists l row,
    listing Sample.resumed_run = Val l /\
    w_jobs (snd (_run_export_locked (P:=ref_platform) Sample.resumed_run
                   (Some "job00001") false
                   (snd (_run_export_locked (P:=ref_platform) Sample.first_run None
                           false Sample.empty_world))))
      !! "job00001" = Some row /\
    status row = completed /\
    completed_at row = Some (now_finished Sample.resumed_run) /\
    total_conversations row = Z.of_nat (length l) /\
    successful_conversations row + failed_conversations row = total_conversations row /\
    Z.of_nat (length (errors row)) = failed_conversations row.
Proof.
  apply (export_counts_add_up (P:=ref_platform) Sample.resumed_run (Some "job00001")
           false
           (snd (_run_export_locked (P:=ref_platform) Sample.first_run None false
                   Sample.empty_world)) "job00001" _);
    [vm_compute; reflexivity|reflexivity].
Defined.

Lemma valid_entries_are_skipped_witness :
  export_loop (P:=ref_platform) Sample.store false "job00001"
    (fun _ => mk_item_env (Val JNull) (Sample.env_on "2024-05-02")) 1 [Sample.entry_a]
    (zero_counters, Sample.stored_world)
  = (mk_counters 1 0 [] 0, Sample.stored_world).
Proof.
  apply (valid_entries_are_skipped (P:=ref_platform) Sample.store "job00001"
           (fun _ => mk_item_env (Val JNull) (Sample.env_on "2024-05-02")) [Sample.entry_a]
           1%nat zero_counters Sample.stored_world).
  intros m [<-|[]]. vm_compute. reflexivity.
Defined.

Lemma warning_counter_bounded_witness :
  0 <= consecutive_detail_failures
         (fst (export_loop (P:=ref_platform) Sample.store true "job00001"
                 (fun _ => mk_item_env (Val JNull) (Sample.env_on "2024-05-02")) 1
                 [Sample.entry_a; Sample.entry_b]
                 (mk_counters 0 24 [] 24, Sample.empty_world))) < 25.
Proof.
  apply (warning_counter_bounded (P:=ref_platform) Sample.store true "job00001"
           (fun _ => mk_item_env (Val JNull) (Sample.env_on "2024-05-02"))
           [Sample.entry_a; Sample.entry_b] 1%nat (mk_counters 0 24 [] 24)
           Sample.empty_world).
  cbn. lia.
Defined.

Lemma resume_unknown_job_raises_witness :
  _run_export_locked (P:=ref_platform) Sample.resumed_run (Some "job00009") false
    Sample.empty_world
  = (Raised (mk_exc ValueError "Job job00009 not found"), Sample.empty_world).
Proof.
  apply (resume_unknown_job_raises (P:=ref_platform) Sample.resumed_run "job00009"
           false Sample.empty_world); [discriminate|reflexivity].
Defined.



Lemma interrupted_run_writes_no_counts_witness :
  w_jobs (snd (_run_export_locked (P:=ref_platform) Sample.first_run None false
                 Sample.empty_world)) !! "job00001"
  = Some (mk_job "2024-05-02T09:00:00" None 0 0 0 [] in_progress).
Proof.
  apply (interrupted_run_writes_no_counts (P:=ref_platform) Sample.first_run None
           false Sample.empty_world _ (mk_job "2024-05-02T09:00:00" None 0 0 0 [] pending));
    vm_compute; reflexivity.
Defined.

(** ** The lock file and the locked run *)

(** X11.  With a timeout of zero or less, the default, [acquire] makes one
    attempt and returns: what further attempts would meet plays no part. *)
Theorem acquire_zero_timeout_single_attempt t a rest s :
  t <= 0 ->
  exists r, acquire t (a :: rest) s = Some r /\ acquire t [a] s = Some r.
Proof.
  intros Ht. cbn [acquire]. destruct (acquire_try a s) as [[| |] s1]; eauto.
  assert ((t <=? 0) = true) as -> by (apply Z.leb_le; exact Ht).
  cbn [orb]. eauto.
Qed.

Lemma acquire_returns t attempts :
  Exists (fun a => t <= elapsed_ms a) attempts ->
  forall s, is_Some (acquire t attempts s).
Proof.
  induction 1 as [a rest Ha|a rest _ IH]; intros s; cbn [acquire];
    destruct (acquire_try a s) as [[| |] s1]; eauto.
  - assert ((t <=? elapsed_ms a) = true) as -> by (apply Z.leb_le; exact Ha).
    rewrite orb_true_r. eauto.
  - destruct ((t <=? 0) || (t <=? elapsed_ms a)); eauto.
Qed.

Lemma attempt_idle a s :
  idle s ->
  lock_backend (fst (snd (acquire_try a s))) = lock_backend (fst s) /\
  match fst (acquire_try a s) with
  | Acquired => holding (holder (snd s)) (snd (acquire_try a s))
  | _ =>
      idle (_close_file (snd (acquire_try a s))) /\
      holder (snd (_close_file (snd (acquire_try a s)))) = holder (snd s) /\
      lock_backend (fst (_close_file (snd (acquire_try a s)))) = lock_backend (fst s)
  end.
Proof.
  destruct s as [[b f acq] [files l n]]. unfold idle, holding. cbn [fst snd lock_file
    _lock_acquired open_files holder lock_backend].
  intros (-> & -> & -> & Hl). unfold acquire_try.
  cbn [lock_file _lock_acquired open_files holder lock_backend next_handle].
  destruct (open_fails a), (other_exception a), b, (lock_call_fails a), (chmod_fails a);
    destruct Hl as [-> | ->];
    cbn [fst snd lock_file _lock_acquired open_files holder lock_backend next_handle
         _close_file os_close drop_lock];
    rewrite ?filter_ne_self, ?Nat.eqb_refl;
    repeat split; eauto; try discriminate.
  all: try (eexists; repeat split; eauto).
Qed.

Lemma acquire_idle t attempts :
  forall s b s',
    idle s ->
    acquire t attempts s = Some (b, s') ->
    lock_backend (fst s') = lock_backend (fst s) /\
    if b then holding (holder (snd s)) s'
    else idle s' /\ holder (snd s') = holder (snd s).
Proof.
  induction attempts as [|a rest IH]; intros s b s' Hidle Hacq;
    cbn [acquire] in Hacq; [discriminate|].
  destruct (attempt_idle a s Hidle) as [Hb Hcase].
  destruct (acquire_try a s) as [[| |] s1]; cbn [fst snd] in Hb, Hcase.
  - injection Hacq as <- <-. split; [exact Hb|exact Hcase].
  - destruct Hcase as (Hi & Hh & Hb').
    destruct ((t <=? 0) || (t <=? elapsed_ms a)).
    + injection Hacq as <- <-. auto.
    + destruct (IH _ _ _ Hi Hacq) as [Hb2 Hc2].
      split; [congruence|]. rewrite Hh in Hc2. exact Hc2.
  - destruct Hcase as (Hi & Hh & Hb'). injection Hacq as <- <-. auto.
Qed.




(** X10.  Without [fcntl] and [msvcrt] the lock file is a marker only:
    [acquire] answers [True] whenever the file can be opened, written and
    given its mode, whoever holds the lock, and takes nothing from them. *)
Theorem marker_backend_excludes_nobody t a rest s :
  lock_backend (fst s) = Marker ->
  idle s ->
  open_fails a = false -> lock_call_fails a = false ->
  chmod_fails a = false -> other_exception a = false ->
  exists s', acquire t (a :: rest) s = Some (true, s') /\
             holder (snd s') = holder (snd s).
Proof.
  destruct s as [[b f acq] [files l n]]. unfold idle.
  cbn [fst snd lock_file _lock_acquired open_files holder lock_backend].
  intros -> (-> & -> & -> & _) Ho Hl Hc He. cbn [acquire]. unfold acquire_try.
  cbn [lock_file _lock_acquired open_files holder lock_backend next_handle].
  rewrite Ho, Hl, Hc, He. eexists. split; reflexivity.
Qed.

Section RunExportProperties.
Context `{P : Platform}.


(** X13.  While another process holds the lock, [run_export] raises
    [RuntimeError] once the timeout has passed, and the job table and the
    archive are not touched. *)
Theorem run_export_locked_out env resume force o w :
  run_backend env <> Marker ->
  open_files o = [] ->
  holder o = HeldElsewhere ->
  Exists (fun a => 5000 <= elapsed_ms a) (run_attempts env) ->
  exists o',
    run_export env resume force (o, w)
    = Some (Raised (mk_exc RuntimeError ("Could not acquire lock at " ++ lock_path env)),
            (o', w)) /\
    holder o' = HeldElsewhere.
Proof.
  intros Hb Hopen Hheld Hex. unfold run_export. cbn [fst snd].
  assert (Hidle : idle (lock_init (run_backend env), o)).
  { unfold idle. cbn. auto. }
  destruct (acquire_returns 5000 _ Hex (lock_init (run_backend env), o)) as [[b s1] Ha].
  rewrite Ha. destruct (acquire_idle _ _ _ _ _ Hidle Ha) as [Hbk Hc].
  destruct b.
  - exfalso. destruct Hc as (_ & h & _ & _ & Hm). rewrite Hbk in Hm.
    cbn in Hm. destruct (run_backend env); [| |contradiction];
      destruct Hm as [Hm _]; cbn in Hm; congruence.
  - destruct s1 as [lf1 o1]. destruct Hc as [_ Hh]. cbn in Hh.
    exists o1. split; [reflexivity|congruence].
Qed.
End RunExportProperties.

Lemma acquire_zero_timeout_single_attempt_witness :
  exists r, acquire 0 [Sample.quiet; Sample.late] Sample.contended_lock = Some r /\
            acquire 0 [Sample.quiet] Sample.contended_lock = Some r.
Proof.
  apply (acquire_zero_timeout_single_attempt 0 Sample.quiet [Sample.late]
           Sample.contended_lock). lia.
Defined.



Lemma marker_backend_excludes_nobody_witness :
  exists s',
    acquire 0 [Sample.quiet] (lock_init Marker, mk_os_lock [] HeldElsewhere 0)
    = Some (true, s') /\
    holder (snd s') = HeldElsewhere.
Proof.
  apply (marker_backend_excludes_nobody 0 Sample.quiet []
           (lock_init Marker, mk_os_lock [] HeldElsewhere 0)); try reflexivity.
  unfold idle. cbn. auto.
Defined.


Lemma run_export_locked_out_witness :
  exists o',
    run_export (P:=ref_platform) Sample.locked_run None false
      (mk_os_lock [] HeldElsewhere 0, Sample.empty_world)
    = Some (Raised (mk_exc RuntimeError
                      ("Could not acquire lock at " ++ lock_path Sample.locked_run)),
            (o', Sample.empty_world)) /\
    holder o' = HeldElsewhere.
Proof.
  apply (run_export_locked_out (P:=ref_platform) Sample.locked_run None false
           (mk_os_lock [] HeldElsewhere 0) Sample.empty_world);
    [discriminate|reflexivity|reflexivity|].
  apply Exists_cons_tl, Exists_cons_hd. cbn. lia.
Defined.

(** ** The store *)

Lemma names_assoc_set (g : string -> bool) name (v e : entry) files :
  assoc name files = Some e ->
  map fst (filter (fun ne : string * entry => g (fst ne) = true) (assoc_set name v files))
  = map fst (filter (fun ne : string * entry => g (fst ne) = true) files).
Proof.
  induction files as [|[k0 v0] files IH]; cbn [assoc assoc_set]; [discriminate|].
  destruct (String.eqb_spec name k0) as [->|Hne].
  - intros _. rewrite !filter_cons. cbn [fst].
    destruct (decide (g k0 = true)); reflexivity.
  - intros H. rewrite !filter_cons. cbn [fst].
    destruct (decide (g k0 = true)); cbn [map]; rewrite (IH H); reflexivity.
Qed.

Section StorageProperties.
Context `{P : Platform}.

(** Asking for the content does not make a wrapper pass that fails without. *)
Lemma verify_wrapper_content st c cid fp wrapper r o :
  _verify_wrapper st c cid fp wrapper true = Val (r, o) ->
  state r = VALID ->
  exists r', _verify_wrapper st c cid fp wrapper false = Val (r', None) /\
             state r' = VALID /\ error_code r' = None.
Proof.
  unfold _verify_wrapper.
  destruct (py_get wrapper "checksum") as [expected|e]; [|discriminate].
  cbn [mbind res_bind rbind].
  destruct (_decrypt_bytes st wrapper) as [[plain|err]|e]; cbn [mbind res_bind rbind];
    try discriminate.
  - destruct (truthy_opt expected && _).
    + intros [= <- <-]. discriminate.
    + cbn [negb]. destruct (json_loads plain).
      * intros [= <- <-] _. eexists. repeat split.
      * intros [= <- <-]. discriminate.
  - intros [= <- <-]. discriminate.
Qed.

(** X14.  [retrieve_conversation] hands out content only for what
    [verify_conversation] accepts: whenever it gives something else than
    [None], the verdict of [verify_conversation] for that identifier is
    [VALID], without an error code. *)
Theorem retrieve_only_if_valid st w cid v :
  retrieve_conversation st w cid = Val v -> v <> JNull ->
  exists r, verify_conversation st w cid = Val r /\
            state r = VALID /\ error_code r = None.
Proof.
  unfold retrieve_conversation, verify_conversation.
  destruct (negb (_ensure_key_matches_manifest st)); [intros [= <-]; contradiction|].
  destruct (find_wrapper_path_for_conversation (w_convs w) cid) as [[fp|]|e];
    cbn [mbind res_bind rbind]; try discriminate; [|intros [= <-]; contradiction].
  destruct (_load_wrapper (w_convs w) fp) as [wrapper|]; [|intros [= <-]; contradiction].
  destruct (truthy wrapper); [|intros [= <-]; contradiction].
  destruct (_verify_wrapper st (w_convs w) cid fp wrapper true) as [[r o]|e] eqn:E;
    cbn [mbind res_bind rbind]; [|discriminate].
  cbn [fst snd]. destruct (state r) eqn:Es; cbn [is_valid negb];
    try (intros [= <-]; contradiction).
  intros _ _. destruct (verify_wrapper_content _ _ _ _ _ _ _ E Es) as (r' & -> & Hs & He).
  exists r'. cbn. auto.
Qed.


(** X15.  After [store_conversation] has answered [True] on a store that
    is not poisoned, [verify_conversation] of the identifier is [VALID] at
    the path of the day, with the SHA-256 of the serialised record as the
    expected and the actual checksum, and [has_valid_conversation] is
    [True]: the next export skips it.  As for the round trip, no directory
    of another day may hold a file of that token name. *)
Theorem stored_entry_verifies (st : LocalEncryptedStore) (env : store_env) (r : json)
  (kv : list (string * json)) (cid : string) (w w' : world) :
  _key_mismatch st = false ->
  assoc "id" kv = Some (JStr cid) -> cid <> "" ->
  store_conversation st env r (JObj kv) w = (Val true, w') ->
  only_in (today env) (wrapper_name cid) (w_convs w) ->
  token_name_exact cid ->
  (forall p, json_dumps r = Some p ->
             round_trips (wrapper_doc st env (JObj kv) p) /\
             cipher_round_trips (encryption_key st) (nonce env) p) ->
  exists p,
    json_dumps r = Some p /\
    verify_conversation st w' cid
    = Val (mk_result cid VALID (Some (today env, wrapper_name cid))
             (size_bytes_of (w_convs w') (today env, wrapper_name cid))
             (Some (JStr (sha256_hex p))) (Some (sha256_hex p)) None) /\
    has_valid_conversation st w' cid = Val true.
Proof.
  intros Hflag Hid Hne Hstore Honly Hexact Hlib.
  destruct (store_success st env r kv cid w w' Hid Hne Hstore Honly)
    as (p & text & Hd & Hdoc & Hlook & Honly').
  destruct (Hlib p Hd) as [Hwrap Hcipher].
  assert (Hv : verify_conversation st w' cid
    = Val (mk_result cid VALID (Some (today env, wrapper_name cid))
             (size_bytes_of (w_convs w') (today env, wrapper_name cid))
             (Some (JStr (sha256_hex p))) (Some (sha256_hex p)) None)).
  { unfold verify_conversation, _ensure_key_matches_manifest.
    rewrite Hflag. cbn [negb].
    rewrite (find_wrapper_unique _ cid (today env) _ Hexact Honly' Hlook).
    cbn [mbind res_bind rbind]. unfold _load_wrapper. rewrite Hlook.
    rewrite (Hwrap text Hdoc). unfold wrapper_doc at 1. cbn [truthy stored_obj].
    unfold wrapper_doc.
    rewrite (verify_wrapper_doc st env (JObj kv) p _ cid _ _ false Hcipher).
    rewrite String.eqb_refl, andb_false_r. reflexivity. }
  exists p. split; [exact Hd|]. split; [exact Hv|].
  unfold has_valid_conversation. rewrite Hv. reflexivity.
Qed.


Lemma iter_assoc_set pattern d files files' c :
  assoc d c = Some (DateDir files) ->
  map fst (filter (fun ne : string * entry => glob_match pattern (fst ne) = true) files')
  = map fst (filter (fun ne : string * entry => glob_match pattern (fst ne) = true) files) ->
  _iter_archive_files pattern (assoc_set d (DateDir files') c)
  = _iter_archive_files pattern c.
Proof.
  intros Hd Hn. unfold _iter_archive_files.
  induction c as [|[k0 v0] c IH]; cbn [assoc assoc_set] in *; [discriminate|].
  destruct (String.eqb_spec d k0) as [->|Hne].
  - injection Hd as ->. cbn [flat_map fst snd]. f_equal.
    rewrite <- !(map_map fst (fun n => (k0, n))). rewrite Hn. reflexivity.
  - cbn [flat_map]. rewrite (IH Hd). reflexivity.
Qed.

(** X16.  Storing an identifier again on the same day writes over its
    wrapper: the archive lists the same files in the same order, the file
    of the identifier holds the new wrapper, every other file is as it
    was. *)
Theorem store_overwrites_in_place (st : LocalEncryptedStore) (env : store_env)
  (r : json) (kv : list (string * json)) (cid old : string) (w w' : world) :
  assoc "id" kv = Some (JStr cid) -> cid <> "" ->
  lookup_file (w_convs w) (today env, wrapper_name cid) = Some (File old) ->
  store_conversation st env r (JObj kv) w = (Val true, w') ->
  (forall pattern,
     _iter_archive_files pattern (w_convs w') = _iter_archive_files pattern (w_convs w)) /\
  (exists p text,
     json_dumps r = Some p /\
     json_dumps (wrapper_doc st env (JObj kv) p) = Some text /\
     lookup_file (w_convs w') (today env, wrapper_name cid) = Some (File text)) /\
  (forall q, q <> (today env, wrapper_name cid) ->
             lookup_file (w_convs w') q = lookup_file (w_convs w) q).
Proof.
  intros Hid Hne Hold Hstore. unfold store_conversation in Hstore.
  destruct (store_try st env r (JObj kv) (w_convs w)) as [[[]|e] c2] eqn:Etry;
    [|discriminate].
  injection Hstore as <-.
  destruct (store_try_success _ _ _ _ _ _ Etry)
    as (p & c1 & cid' & text & Hd & Hmk & Hcid & Hdoc & Hf & ->).
  rewrite (filed_under_id kv cid Hid Hne) in Hcid. injection Hcid as <-.
  unfold lookup_file in Hold. cbn [fst snd] in Hold.
  destruct (assoc (today env) (w_convs w)) as [[files|]|] eqn:Edir; try discriminate.
  assert (c1 = w_convs w) as ->.
  { unfold mkdir_date in Hmk. rewrite Edir in Hmk.
    destruct (fault env); congruence. }
  cbn [w_convs set_convs]. unfold _wrapper_path_for. split; [|split].
  - intros pattern. unfold write_wrapper. cbn [fst snd]. rewrite Edir.
    apply (iter_assoc_set pattern (today env) files); [exact Edir|].
    unfold put_file. rewrite Hold. apply (names_assoc_set _ _ _ _ _ Hold).
  - exists p, text. repeat split; try assumption.
    apply (lookup_write_eq _ (today env, wrapper_name cid) _ _ files). exact Edir.
  - intros q Hq. apply lookup_write_ne. exact Hq.
Qed.


(** X17.  The key is stable: once [get_or_create_key] has given a key,
    a later call with the same credential manager at hand gives the same
    key and writes nothing, whatever it would have generated. *)
Theorem key_persists (env env2 : key_env) (w w1 : world) (k : string) :
  get_or_create_key env w = (Val k, w1) ->
  fernet_valid k = true -> k <> "" -> strip k = k ->
  has_keyring env2 = has_keyring env ->
  keyring_get_fails env2 = false -> keyfile_read_fails env2 = false ->
  get_or_create_key env2 w1 = (Val k, w1).
Proof.
  intros H Hvalid Hne Hstrip Hk Hget Hread.
  assert (Hnb : String.eqb k "" = false) by (apply String.eqb_neq; exact Hne).
  unfold get_or_create_key in *. rewrite Hk, Hget, Hread. unfold _store_key_locally in *.
  repeat match type of H with
         | context [match ?x with _ => _ end] => destruct x eqn:?
         end; try discriminate.
  all: try match goal with
           | Hp : match keyfile_fault ?e with _ => _ end = _ |- _ =>
               destruct (keyfile_fault e); try discriminate;
               injection Hp as _ <-
           end.
  all: injection H as <- <-.
  all: cbn [w_keyring w_keyfile set_keyring set_keyfile negb andb].
  all: repeat match goal with
              | E : ?x = _ |- context [?x] => rewrite E
              end.
  all: cbn [negb andb]; rewrite ?Hstrip, ?Hvalid; try reflexivity.
Qed.


Lemma get_or_create_key_set_manifest env m w :
  get_or_create_key env (set_manifest m w)
  = (fst (get_or_create_key env w), set_manifest m (snd (get_or_create_key env w))).
Proof.
  unfold get_or_create_key, _store_key_locally.
  cbn [w_keyring w_keyfile set_manifest].
  destruct (keyfile_fault env);
    repeat match goal with
           | |- context [if ?x then _ else _] => destruct x
           | |- context [match ?x with Some _ => _ | None => _ end] => destruct x
           end; reflexivity.
Qed.

(** X18.  Opening the archive again with the same key gives the same
    store, not poisoned, and changes nothing: the manifest written by the
    first opening binds the fingerprint the second one computes. *)
Theorem reopened_store_is_not_poisoned (env env2 : init_env) (w w1 : world)
  (st : LocalEncryptedStore) :
  store_init env w = (Val st, w1) ->
  _key_mismatch st = false ->
  encryption_key st <> "" -> strip (encryption_key st) = encryption_key st ->
  round_trips (JObj [("version", JStr STORAGE_VERSION);
                     ("created_at", JStr (init_now env));
                     ("key_fingerprint", JStr (key_fingerprint st))]) ->
  has_keyring (init_key_env env2) = has_keyring (init_key_env env) ->
  keyring_get_fails (init_key_env env2) = false ->
  keyfile_read_fails (init_key_env env2) = false ->
  manifest_read_fails env2 = false ->
  store_init env2 w1 = (Val st, w1).
Proof.
  intros H Hflag Hne Hstrip Hjson Hk Hget Hread Hmread. unfold store_init in *.
  pose proof (get_or_create_key_manifest (init_key_env env) w) as Hman.
  destruct (get_or_create_key (init_key_env env) w) as [[key|e] w0] eqn:Ekey;
    [|discriminate]. cbn [snd] in Hman.
  destruct (fernet_valid key) eqn:Hvalid; [|discriminate].
  cbv zeta in H.
  destruct (_load_or_init_manifest env (prefix_n 16 (sha256_hex key)) w0)
    as [mismatch w2] eqn:Eman.
  injection H as <- <-. cbn [encryption_key key_fingerprint _key_mismatch] in *.
  subst mismatch.
  assert (Hkey2 : get_or_create_key (init_key_env env2) w2 = (Val key, w2)).
  { unfold _load_or_init_manifest in Eman.
    assert (Hw : w2 = w0 \/ exists t, w2 = set_manifest (Some t) w0).
    { repeat match type of Eman with
             | context [match ?x with _ => _ end] => destruct x
             end; try discriminate; inversion Eman; eauto. }
    pose proof (key_persists _ (init_key_env env2) _ _ _ Ekey Hvalid Hne Hstrip Hk Hget Hread)
      as Hp.
    destruct Hw as [->|[t ->]]; [exact Hp|].
    rewrite get_or_create_key_set_manifest, Hp. reflexivity. }
  rewrite Hkey2, Hvalid. cbv zeta.
  assert (Hm2 : _load_or_init_manifest env2 (prefix_n 16 (sha256_hex key)) w2 = (false, w2)).
  { revert Eman. unfold _load_or_init_manifest.
    destruct (w_manifest w0) as [text|] eqn:Em.
    - destruct (manifest_read_fails env); [discriminate|].
      destruct (json_loads text) as [data|] eqn:El; [|discriminate].
      destruct (py_get data "key_fingerprint") as [fp|e] eqn:Eg; [|discriminate].
      intros [= Hb <-]. rewrite Em, Hmread, El, Eg, Hb. reflexivity.
    - destruct (json_dumps _) as [text|] eqn:Ed; [|discriminate].
      destruct (manifest_write_fails env); [discriminate|].
      intros [= <-]. cbn [w_manifest set_manifest]. rewrite Hmread.
      rewrite (Hjson text Ed). cbn [py_get assoc String.eqb Ascii.eqb Bool.eqb].
      cbn. rewrite String.eqb_refl, andb_false_r. reflexivity. }
  rewrite Hm2. reflexivity.
Qed.


(** X19.  Prefer safety: a manifest that cannot be read, is no JSON or is
    no JSON object, and a missing manifest that cannot be written, leave
    the store poisoned. *)
Theorem unusable_manifest_poisons (env : init_env) (w w1 : world)
  (st : LocalEncryptedStore) :
  store_init env w = (Val st, w1) ->
  match w_manifest w with
  | Some text =>
      manifest_read_fails env = true \/
      match json_loads text with
      | Some (JObj _) => False
      | _ => True
      end
  | None => manifest_write_fails env = true
  end ->
  _key_mismatch st = true.
Proof.
  intros H Hbad. unfold store_init in H.
  pose proof (get_or_create_key_manifest (init_key_env env) w) as Hman.
  destruct (get_or_create_key (init_key_env env) w) as [[key|e] w0]; [|discriminate].
  cbn [snd] in Hman. destruct (fernet_valid key); [|discriminate].
  cbv zeta in H. unfold _load_or_init_manifest in H. rewrite Hman in H.
  destruct (w_manifest w) as [text|].
  - destruct (manifest_read_fails env); [injection H as <- _; reflexivity|].
    destruct Hbad as [Hbad|Hbad]; [discriminate|].
    destruct (json_loads text) as [[]|]; try contradiction;
      injection H as <- _; reflexivity.
  - rewrite Hbad in H. destruct (json_dumps _); injection H as <- _; reflexivity.
Qed.

(** X20.  A manifest without a fingerprint (absent, null or empty) binds
    no key: the store opens unpoisoned with whatever key it has, and the
    manifest is left as it is. *)
Theorem manifest_without_fingerprint_binds_no_key (env : init_env) (w w1 : world)
  (st : LocalEncryptedStore) (text : string) (kv : list (string * json)) :
  store_init env w = (Val st, w1) ->
  w_manifest w = Some text -> manifest_read_fails env = false ->
  json_loads text = Some (JObj kv) ->
  truthy_opt (assoc "key_fingerprint" kv) = false ->
  _key_mismatch st = false /\ w_manifest w1 = Some text.
Proof.
  intros H Hm Hread Hload Hfp. unfold store_init in H.
  pose proof (get_or_create_key_manifest (init_key_env env) w) as Hman.
  destruct (get_or_create_key (init_key_env env) w) as [[key|e] w0]; [|discriminate].
  cbn [snd] in Hman. destruct (fernet_valid key); [|discriminate].
  cbv zeta in H. unfold _load_or_init_manifest in H.
  rewrite Hman, Hm, Hread, Hload in H. cbn [py_get] in H. rewrite Hfp in H.
  cbn [andb] in H. injection H as <- <-. split; [reflexivity|congruence].
Qed.

End StorageProperties.

(** ** The store on the reference platform *)

Lemma retrieve_only_if_valid_witness :
  exists r, verify_conversation Sample.store Sample.stored_world "abc123" = Val r /\
            state r = VALID /\ error_code r = None.
Proof.
  apply (retrieve_only_if_valid (P:=ref_platform) Sample.store Sample.stored_world
           "abc123" Sample.record); [vm_compute; reflexivity|discriminate].
Defined.

Lemma stored_entry_verifies_witness :
  exists p,
    Ref.dumps Sample.record = Some p /\
    verify_conversation Sample.store Sample.stored_world "abc123"
    = Val (mk_result "abc123" VALID (Some ("2024-05-02", wrapper_name "abc123"))
             (size_bytes_of (w_convs Sample.stored_world)
                ("2024-05-02", wrapper_name "abc123"))
             (Some (JStr (Ref.digest p))) (Some (Ref.digest p)) None) /\
    has_valid_conversation Sample.store Sample.stored_world "abc123" = Val true.
Proof.
  apply (stored_entry_verifies (P:=ref_platform) Sample.store
           (Sample.env_on "2024-05-02") Sample.record Sample.metadata_fields "abc123"
           Sample.empty_world Sample.stored_world).
  - reflexivity.
  - reflexivity.
  - discriminate.
  - vm_compute. reflexivity.
  - intros d files e [].
  - exact sample_token_name_exact.
  - exact sample_libraries.
Defined.

Lemma store_overwrites_in_place_witness :
  (forall pattern,
     _iter_archive_files pattern
       (w_convs (snd (store_conversation Sample.store (Sample.env_on "2024-05-02")
                        Sample.old_record Sample.metadata Sample.stored_world)))
     = _iter_archive_files pattern (w_convs Sample.stored_world)) /\
  (exists p text,
     Ref.dumps Sample.old_record = Some p /\
     Ref.dumps (wrapper_doc Sample.store (Sample.env_on "2024-05-02")
                  Sample.metadata p) = Some text /\
     lookup_file
       (w_convs (snd (store_conversation Sample.store (Sample.env_on "2024-05-02")
                        Sample.old_record Sample.metadata Sample.stored_world)))
       ("2024-05-02", wrapper_name "abc123") = Some (File text)) /\
  (forall q, q <> ("2024-05-02", wrapper_name "abc123") ->
     lookup_file
       (w_convs (snd (store_conversation Sample.store (Sample.env_on "2024-05-02")
                        Sample.old_record Sample.metadata Sample.stored_world))) q
     = lookup_file (w_convs Sample.stored_world) q).
Proof.
  apply (store_overwrites_in_place (P:=ref_platform) Sample.store
           (Sample.env_on "2024-05-02") Sample.old_record Sample.metadata_fields
           "abc123"
           (match lookup_file (w_convs Sample.stored_world)
                    ("2024-05-02", wrapper_name "abc123") with
            | Some (File t) => t
            | _ => ""
            end)
           Sample.stored_world).
  - reflexivity.
  - discriminate.
  - vm_compute. reflexivity.
  - vm_compute. reflexivity.
Defined.

Lemma key_persists_witness :
  get_or_create_key Sample.key_env0
    (snd (get_or_create_key Sample.key_env0 Sample.bad_key_world))
  = (Val (Ref.generate_key "seed"),
     snd (get_or_create_key Sample.key_env0 Sample.bad_key_world)).
Proof.
  apply (key_persists (P:=ref_platform) Sample.key_env0 Sample.key_env0
           Sample.bad_key_world).
  - vm_compute. reflexivity.
  - vm_compute. reflexivity.
  - discriminate.
  - vm_compute. reflexivity.
  - reflexivity.
  - reflexivity.
  - reflexivity.
Defined.

Lemma reopened_store_is_not_poisoned_witness :
  store_init Sample.init_env0 (snd (store_init Sample.init_env0 Sample.empty_world))
  = (Val Sample.store, snd (store_init Sample.init_env0 Sample.empty_world)).
Proof.
  apply (reopened_store_is_not_poisoned (P:=ref_platform) Sample.init_env0
           Sample.init_env0 Sample.empty_world).
  - vm_compute. reflexivity.
  - reflexivity.
  - discriminate.
  - vm_compute. reflexivity.
  - intros s Hs. vm_compute in Hs. inversion Hs; subst; clear Hs.
    vm_compute. reflexivity.
  - reflexivity.
  - reflexivity.
  - reflexivity.
  - reflexivity.
Defined.

Lemma unusable_manifest_poisons_witness :
  _key_mismatch (mk_store Sample.key (Sample.fingerprint_of Sample.key) true) = true.
Proof.
  apply (unusable_manifest_poisons (P:=ref_platform) Sample.init_env0
           (mk_world (Some Sample.key) None (Some "[1") [] ∅)
           (mk_world (Some Sample.key) None (Some "[1") [] ∅)).
  - vm_compute. reflexivity.
  - right. vm_compute. exact I.
Defined.

Lemma manifest_without_fingerprint_binds_no_key_witness :
  _key_mismatch Sample.store = false /\
  w_manifest (mk_world (Some Sample.key) None (Some "{}") [] ∅) = Some "{}".
Proof.
  apply (manifest_without_fingerprint_binds_no_key (P:=ref_platform) Sample.init_env0
           (mk_world (Some Sample.key) None (Some "{}") [] ∅)
           (mk_world (Some Sample.key) None (Some "{}") [] ∅)
           Sample.store "{}" []).
  - vm_compute. reflexivity.
  - reflexivity.
  - reflexivity.
  - vm_compute. reflexivity.
  - reflexivity.
Defined.

(** ** The session token *)

(** X21.  With a credential manager, a token [store_token] has accepted
    is the one [retrieve_token] gives back, whatever the environment
    variable holds. *)
Theorem token_round_trip (env env2 : token_env) (t : string) (force : bool)
  (w w' : token_world) :
  t_has_keyring env = true ->
  store_token env (JStr t) force w = (true, w') ->
  t_has_keyring env2 = true -> t_keyring_fails env2 = false ->
  retrieve_token env2 w' = Some t.
Proof.
  intros Hk Hstore Hk2 Hf2. unfold store_token in Hstore. unfold retrieve_token.
  rewrite Hk in Hstore. rewrite Hk2, Hf2.
  destruct (String.eqb t "") eqn:Et; [discriminate|].
  destruct (t_keyring_fails env); [discriminate|].
  injection Hstore as <-. cbn [t_keyring]. rewrite Et. reflexivity.
Qed.

Lemma store_env_fallback_keyring env t w :
  t_keyring (snd (_store_env_fallback env t w)) = t_keyring w.
Proof.
  unfold _store_env_fallback.
  destruct (t_env_file w) as [content|]; destruct (t_file_fault env);
    try destruct (contains "CHATGPT_AUTH_TOKEN" content); reflexivity.
Qed.

(** X22.  Without a credential manager [store_token] can only write
    [.env.local], which [retrieve_token] never reads: what
    [retrieve_token] answers is the same before and after, whether the
    store succeeded or not. *)
Theorem env_fallback_is_not_read_back (env env2 : token_env) (token : json)
  (force b : bool) (w w' : token_world) :
  t_has_keyring env = false ->
  store_token env token force w = (b, w') ->
  retrieve_token env2 w' = retrieve_token env2 w.
Proof.
  intros Hk Hstore.
  assert (Hkr : t_keyring w' = t_keyring w).
  { unfold store_token in Hstore. rewrite Hk in Hstore.
    destruct token as [| | |t| |]; try (injection Hstore as _ <-; reflexivity).
    destruct (String.eqb t ""); [injection Hstore as _ <-; reflexivity|].
    destruct (_confirm_env_fallback env force) as [[|]|e];
      try (injection Hstore as _ <-; reflexivity).
    pose proof (store_env_fallback_keyring env t w) as Hs.
    destruct (_store_env_fallback env t w) as [[u|e] w1]; cbn [snd] in Hs;
      injection Hstore as _ <-; exact Hs. }
  unfold retrieve_token. rewrite Hkr. reflexivity.
Qed.

(** X23.  When [.env.local] already mentions [CHATGPT_AUTH_TOKEN], the
    fallback writes nothing and [store_token] still answers [True]: the
    file keeps the entry it had. *)
Theorem env_fallback_keeps_existing_entry (env : token_env) (t content : string)
  (w : token_world) :
  t <> "" ->
  t_has_keyring env = false ->
  t_file_fault env <> EnvReadFails ->
  t_env_file w = Some content ->
  contains "CHATGPT_AUTH_TOKEN" content = true ->
  store_token env (JStr t) true w = (true, w).
Proof.
  intros Ht Hk Hf Hfile Hc. unfold store_token, _confirm_env_fallback.
  destruct (String.eqb_spec t ""); [contradiction|]. rewrite Hk.
  unfold _store_env_fallback. rewrite Hfile, Hc.
  destruct (t_file_fault env); try reflexivity. contradiction.
Qed.

(** X24.  [TokenManager.validate_token] accepts exactly the tokens
    [ConversationFetcher] accepts on construction: non-empty strings of at
    least 20 characters. *)
Theorem validate_token_agrees_with_fetcher (token : json) :
  validate_token token = true <->
  exists t, token = JStr t /\ fetcher_init t = Val t.
Proof.
  unfold validate_token, fetcher_init. split.
  - destruct token as [| | |t| |]; try discriminate.
    intros H. exists t. split; [reflexivity|].
    apply andb_prop in H as [H1 H2].
    apply negb_true_iff in H1, H2. rewrite H1, H2. reflexivity.
  - intros (t & -> & H).
    destruct (String.eqb t ""); [discriminate|].
    destruct (String.length t <? 20)%nat; [discriminate|reflexivity].
Qed.

Lemma token_round_trip_witness :
  retrieve_token (mk_token_env true false (Some "from-the-environment") false None EnvOk)
    (mk_token_world (Some "session-token-0123456789") None)
  = Some "session-token-0123456789".
Proof.
  apply (token_round_trip (mk_token_env true false None false None EnvOk)
           (mk_token_env true false (Some "from-the-environment") false None EnvOk)
           "session-token-0123456789" false (mk_token_world None None));
    reflexivity.
Defined.

Lemma env_fallback_is_not_read_back_witness :
  retrieve_token (mk_token_env false false None false None EnvOk)
    (mk_token_world None (Some (env_line "session-token-0123456789")))
  = retrieve_token (mk_token_env false false None false None EnvOk)
      (mk_token_world None None).
Proof.
  apply (env_fallback_is_not_read_back
           (mk_token_env false false None false None EnvOk)
           (mk_token_env false false None false None EnvOk)
           (JStr "session-token-0123456789") true true (mk_token_world None None));
    reflexivity.
Defined.

Lemma env_fallback_keeps_existing_entry_witness :
  store_token (mk_token_env false false None false None EnvOk)
    (JStr "session-token-0123456789") true
    (mk_token_world None (Some (env_line "an-older-session-token-42")))
  = (true, mk_token_world None (Some (env_line "an-older-session-token-42"))).
Proof.
  apply (env_fallback_keeps_existing_entry
           (mk_token_env false false None false None EnvOk)
           "session-token-0123456789" (env_line "an-older-session-token-42"));
    [discriminate|reflexivity|discriminate|reflexivity|reflexivity].
Defined.

(** ** The fetcher *)

Section FetcherProperties.

Context `{P : Platform}.

Import Fetcher.

Lemma length_list_ascii_of_string s :
  length (list_ascii_of_string s) = String.length s.
Proof. induction s as [|c s IH]; cbn; [reflexivity|rewrite IH; reflexivity]. Qed.

Lemma py_len_elements v k :
  py_len v = Some k -> length (py_elements v) = k.
Proof.
  destruct v; cbn; try discriminate; intros [= <-];
    rewrite ?length_map, ?length_list_ascii_of_string; reflexivity.
Qed.

Lemma fetch_batch_from_bounds server limit n :
  forall attempt s,
    (requests s <= requests (snd (fetch_batch_from server limit attempt n s))
     <= requests s + n)%nat /\
    (n <> O -> requests s < requests (snd (fetch_batch_from server limit attempt n s)))%nat /\
    slept_ms s <= slept_ms (snd (fetch_batch_from server limit attempt n s))
    <= slept_ms s + 2000 * (2 ^ Z.of_nat (attempt + n) - 2 ^ Z.of_nat attempt).
Proof.
  induction n as [|n IH]; intros attempt s.
  - cbn [fetch_batch_from snd]. rewrite !Nat.add_0_r, Z.sub_diag.
    repeat split; lia.
  - assert (Hpow : 2 ^ Z.of_nat (attempt + S n) = 2 * 2 ^ Z.of_nat (attempt + n)).
    { replace (Z.of_nat (attempt + S n)) with (Z.succ (Z.of_nat (attempt + n))) by lia.
      apply Z.pow_succ_r. lia. }
    assert (Hpow' : 2 ^ Z.of_nat (S attempt + n) = 2 * 2 ^ Z.of_nat (attempt + n)).
    { rewrite <- Hpow. f_equal. lia. }
    assert (Hmono : 2 ^ Z.of_nat attempt <= 2 ^ Z.of_nat (attempt + n)).
    { apply Z.pow_le_mono_r; lia. }
    assert (Hpos : 0 < 2 ^ Z.of_nat attempt) by (apply Z.pow_pos_nonneg; lia).
    assert (Hs : 2 ^ Z.of_nat (S attempt) = 2 * 2 ^ Z.of_nat attempt).
    { replace (Z.of_nat (S attempt)) with (Z.succ (Z.of_nat attempt)) by lia.
      apply Z.pow_succ_r. lia. }
    pose proof (IH (S attempt) (sleep (backoff_ms attempt) (requested s))) as IHs.
    cbn [fetch_batch_from].
    destruct (server (requests s)) as [code text| | |msg]; cbn [snd].
    + destruct (code =? 200).
      { destruct (json_loads text) as [[| | | | |kv]|]; cbn [snd requested requests slept_ms];
          try destruct (py_len _); cbn [snd requested requests slept_ms];
          repeat split; try lia. }
      destruct (code =? 401); [cbn [snd requested requests slept_ms]; repeat split; lia|].
      destruct (code =? 429); [|cbn [snd requested requests slept_ms]; repeat split; lia].
      destruct IHs as ((H1 & H2) & _ & H3 & H4).
      cbn [sleep requested requests slept_ms] in *. unfold backoff_ms in *.
      rewrite Hpow' in H4. rewrite Hpow.
      repeat split; try lia.
    + destruct (attempt <? MAX_RETRIES - 1)%nat;
        [|cbn [snd requested requests slept_ms]; repeat split; lia].
      destruct IHs as ((H1 & H2) & _ & H3 & H4).
      cbn [sleep requested requests slept_ms] in *. unfold backoff_ms in *.
      rewrite Hpow' in H4. rewrite Hpow.
      repeat split; try lia.
    + cbn [snd requested requests slept_ms]; repeat split; lia.
    + cbn [snd requested requests slept_ms]; repeat split; lia.
Qed.

(** X25.  One call of [_fetch_batch] makes at least one and at most three
    requests, and sleeps at most 2 + 4 + 8 seconds between them. *)
Theorem fetch_batch_bounded server offset limit s :
  (requests s < requests (snd (_fetch_batch server offset limit s)) <= requests s + 3)%nat /\
  slept_ms s <= slept_ms (snd (_fetch_batch server offset limit s)) <= slept_ms s + 14000.
Proof.
  unfold _fetch_batch, MAX_RETRIES.
  destruct (fetch_batch_from_bounds server limit 3 0%nat s) as ((H1 & H2) & H3 & H4 & H5).
  change (2000 * (2 ^ Z.of_nat (0 + 3) - 2 ^ Z.of_nat 0)) with 14000 in H5.
  repeat split; lia.
Qed.

Lemma rate_limited_batch server limit n :
  forall attempt s,
    (forall i, (i < n)%nat -> exists text, server (requests s + i)%nat = Reply 429 text) ->
    exists s', fetch_batch_from server limit attempt n s = (Got (JArr [], false), s').
Proof.
  induction n as [|n IH]; intros attempt s Hall; cbn [fetch_batch_from]; [eauto|].
  destruct (Hall 0%nat ltac:(lia)) as [text Ht]. rewrite Nat.add_0_r in Ht.
  rewrite Ht. cbn [Z.eqb Pos.eqb].
  apply IH. intros i Hi. cbn [sleep requested requests].
  destruct (Hall (S i) ltac:(lia)) as [text' Ht'].
  exists text'. rewrite <- Ht'. f_equal. lia.
Qed.

(** X26.  Three rate-limited replies in a row end the pagination without
    an exception: [_fetch_batch] gives an empty batch, and the loop of
    [fetch_all_conversations] returns what it has collected so far as the
    whole listing. *)
Theorem rate_limited_fetch_stops_quietly server limit batch_size fuel all offset s :
  (forall i, (i < 3)%nat -> exists text, server (requests s + i)%nat = Reply 429 text) ->
  exists s',
    fetch_loop server limit batch_size (S fuel) all offset s = Some (Got (all, offset), s').
Proof.
  intros Hall. cbn [fetch_loop].
  destruct (match limit with
            | Some l => negb (l =? 0) && (l <=? Z.of_nat (length all))
            | None => false
            end); [eauto|].
  unfold _fetch_batch, MAX_RETRIES.
  destruct (rate_limited_batch server batch_size 3 0%nat s Hall) as [s' ->].
  cbn [truthy negb]. eauto.
Qed.

Lemma fetch_loop_offset server limit batch_size fuel :
  forall all offset s all' offset' s',
    offset = Z.of_nat (length all) ->
    fetch_loop server limit batch_size fuel all offset s = Some (Got (all', offset'), s') ->
    offset' = Z.of_nat (length all').
Proof.
  induction fuel as [|fuel IH]; intros all offset s all' offset' s' Hoff H;
    cbn [fetch_loop] in H; [discriminate|].
  destruct (match limit with
            | Some l => negb (l =? 0) && (l <=? Z.of_nat (length all))
            | None => false
            end); [injection H as <- <- _; exact Hoff|].
  destruct (_fetch_batch server offset batch_size s) as [[[batch has_more]|e] s1] eqn:Eb;
    [|discriminate].
  destruct (negb (truthy batch)); [injection H as <- <- _; exact Hoff|].
  assert (Hlen : offset + Z.of_nat (default 0%nat (py_len batch))
                 = Z.of_nat (length (all ++ py_elements batch))).
  { rewrite length_app, Hoff. destruct (py_len batch) as [k|] eqn:Ek.
    - rewrite (py_len_elements _ _ Ek). cbn. lia.
    - destruct batch; cbn in Ek; try discriminate; cbn; lia. }
  destruct (negb has_more); [injection H as <- <- _; exact Hlen|].
  eapply IH; [exact Hlen|exact H].
Qed.

(** X27.  What [fetch_all_conversations] returns is consistent: [total]
    is the number of conversations, the offset reached equals it, and the
    batch size reported is the one given, or 100 when none or zero was
    given. *)
Theorem fetch_all_totals server limit batch_size fuel s r s' :
  fetch_all_conversations server limit batch_size fuel s = Some (Got r, s') ->
  total r = Z.of_nat (length (conversations r)) /\
  offset_reached r = total r /\
  limit_used r = match batch_size with
                 | Some b => if b =? 0 then 100 else b
                 | None => 100
                 end.
Proof.
  unfold fetch_all_conversations. intros H.
  destruct (validate_api_status server s) as [[status message] s1].
  destruct status; try discriminate.
  destruct (fetch_loop server limit _ fuel [] 0 s1) as [[[[all offset]|e] s2]|] eqn:El;
    try discriminate.
  injection H as <- _. cbn [total conversations offset_reached limit_used].
  repeat split. eapply fetch_loop_offset; [|exact El]. reflexivity.
Qed.

Lemma detail_quiet server n :
  forall attempt s,
    (forall i, (i < n)%nat ->
       match server (requests s + i)%nat with
       | Reply code _ => code <> 200 /\ code <> 401
       | TimedOut => True
       | _ => False
       end) ->
    fst (detail_from server attempt n s) = Got JNull.
Proof.
  induction n as [|n IH]; intros attempt s Hall; cbn [detail_from fst]; [reflexivity|].
  pose proof (Hall 0%nat ltac:(lia)) as H0. rewrite Nat.add_0_r in H0.
  assert (Hnext : forall s1, requests s1 = S (requests s) ->
            forall i, (i < n)%nat ->
              match server (requests s1 + i)%nat with
              | Reply code _ => code <> 200 /\ code <> 401
              | TimedOut => True
              | _ => False
              end).
  { intros s1 Hs1 i Hi. pose proof (Hall (S i) ltac:(lia)) as Hi'.
    replace (requests s1 + i)%nat with (requests s + S i)%nat by lia. exact Hi'. }
  destruct (server (requests s)) as [code text| | |msg]; try contradiction.
  - destruct H0 as [H200 H401].
    destruct (Z.eqb_spec code 200); [contradiction|].
    destruct (code =? 404); [reflexivity|].
    destruct (Z.eqb_spec code 401); [contradiction|].
    destruct (code =? 429); apply IH, Hnext; reflexivity.
  - destruct (attempt <? MAX_RETRIES - 1)%nat; [|reflexivity].
    apply IH, Hnext; reflexivity.
Qed.

(** X28.  [fetch_conversation_detail] answers [None], without an
    exception and within three requests, when every reply is a timeout or
    a status other than 200 and 401: server errors, rate limiting and
    missing conversations all look the same to the caller. *)
Theorem detail_gives_up_quietly server s :
  (forall i, (i < 3)%nat ->
     match server (requests s + i)%nat with
     | Reply code _ => code <> 200 /\ code <> 401
     | TimedOut => True
     | _ => False
     end) ->
  fst (fetch_conversation_detail server s) = Got JNull /\
  (requests (snd (fetch_conversation_detail server s)) <= requests s + 3)%nat.
Proof.
  intros Hall. split; [apply detail_quiet; exact Hall|].
  unfold fetch_conversation_detail, MAX_RETRIES.
  generalize 0%nat at 1. generalize 3%nat. clear Hall. revert s.
  intros s n. revert s. induction n as [|n IH]; intros s attempt;
    cbn [detail_from snd]; [lia|].
  pose proof (IH (sleep (backoff_ms attempt) (requested s)) (S attempt)) as H1.
  pose proof (IH (requested s) (S attempt)) as H2.
  cbn [sleep requested requests] in H1, H2.
  destruct (server (requests s)) as [code text| | |msg]; cbn [snd requested requests];
    repeat match goal with
           | |- context [if ?b then _ else _] => destruct b
           | |- context [match json_loads ?t with _ => _ end] => destruct (json_loads t)
           end; cbn [snd requested requests]; lia.
Qed.

End FetcherProperties.

Lemma rate_limited_fetch_stops_quietly_witness :
  exists s',
    Fetcher.fetch_loop (P:=ref_platform) (fun _ => Fetcher.Reply 429 "") None 100 1
      [JObj [("id", JStr "abc123")]] 1 (Fetcher.mk_net 2 500)
    = Some (Fetcher.Got ([JObj [("id", JStr "abc123")]], 1), s').
Proof.
  apply (rate_limited_fetch_stops_quietly (P:=ref_platform)
           (fun _ => Fetcher.Reply 429 "") None 100 0
           [JObj [("id", JStr "abc123")]] 1 (Fetcher.mk_net 2 500)).
  intros i _. exists "". reflexivity.
Defined.

Lemma fetch_all_totals_witness :
  Fetcher.total
    (Fetcher.mk_fetch_result
       [JObj [("id", JStr "abc123")]; JObj [("id", JStr "def456")];
        JObj [("id", JStr "ghi789")]] 3 3 2)
  = Z.of_nat (length (Fetcher.conversations
       (Fetcher.mk_fetch_result
          [JObj [("id", JStr "abc123")]; JObj [("id", JStr "def456")];
           JObj [("id", JStr "ghi789")]] 3 3 2))) /\
  Fetcher.offset_reached
    (Fetcher.mk_fetch_result
       [JObj [("id", JStr "abc123")]; JObj [("id", JStr "def456")];
        JObj [("id", JStr "ghi789")]] 3 3 2)
  = Fetcher.total
      (Fetcher.mk_fetch_result
         [JObj [("id", JStr "abc123")]; JObj [("id", JStr "def456")];
          JObj [("id", JStr "ghi789")]] 3 3 2) /\
  Fetcher.limit_used
    (Fetcher.mk_fetch_result
       [JObj [("id", JStr "abc123")]; JObj [("id", JStr "def456")];
        JObj [("id", JStr "ghi789")]] 3 3 2)
  = 2.
Proof.
  apply (fetch_all_totals (P:=ref_platform) Sample.paged_server None (Some 2) 5
           (Fetcher.mk_net 0 0) _ (Fetcher.mk_net 4 3000)).
  vm_compute. reflexivity.
Defined.

Lemma detail_gives_up_quietly_witness :
  fst (Fetcher.fetch_conversation_detail (P:=ref_platform)
         (fun _ => Fetcher.Reply 503 "") (Fetcher.mk_net 0 0))
  = Fetcher.Got JNull /\
  (Fetcher.requests
     (snd (Fetcher.fetch_conversation_detail (P:=ref_platform)
             (fun _ => Fetcher.Reply 503 "") (Fetcher.mk_net 0 0))) <= 0 + 3)%nat.
Proof.
  apply (detail_gives_up_quietly (P:=ref_platform) (fun _ => Fetcher.Reply 503 "")
           (Fetcher.mk_net 0 0)).
  intros i _. split; discriminate.
Defined.
